(** * EASM Profile Manager: a shallow embedding of [EASM_API.py]

    The dashboard authenticates a range of generated usernames against an
    HTTP gateway, lists the scan profiles of every authenticated account,
    filters the resulting table and deletes selected profiles.

    Conventions of the embedding:
    - a Python [str] is a Rocq [string]; the character numbered [n] stands
      for the code point [n] (0..255), so text is Latin-1 text;
    - a Python [int] is a [Z];
    - the network is a deterministic environment [env] that answers a request
      from the list of requests sent before it; every function that talks to
      the network threads that list (the call history) explicitly;
    - an uncaught Python exception is the [Raise] outcome of a computation. *)

From Stdlib Require Import List String Ascii ZArith Lia Bool.
From Stdlib Require Import Numbers.DecimalString DecimalPos DecimalZ FinFun.
Import ListNotations.

Local Open Scope string_scope.
Local Open Scope Z_scope.

(** ** Python primitives *)

Module Py.

(** [str(i)] for an integer. *)
Definition str_int (i : Z) : string := NilZero.string_of_int (Z.to_int i).

(** [range(start, stop)]. *)
Definition range (start stop : Z) : list Z :=
  map (fun k => start + Z.of_nat k) (seq 0 (Z.to_nat (stop - start))).

(** Truth value of a [str]: the empty string is falsy. *)
Definition truthy_str (s : string) : bool :=
  match s with EmptyString => false | String _ _ => true end.

Definition code (c : ascii) : N := N_of_ascii c.

(** [c.isspace()] on the code points 0..255. *)
Definition isspace (c : ascii) : bool :=
  let n := code c in
  ((9 <=? n) && (n <=? 13) || (28 <=? n) && (n <=? 32)
   || (n =? 133) || (n =? 160))%N.

Fixpoint lstrip (s : string) : string :=
  match s with
  | EmptyString => EmptyString
  | String c s' => if isspace c then lstrip s' else s
  end.

(** Drops the trailing whitespace: a character is kept when it is not
    whitespace or when something is kept after it. *)
Fixpoint rstrip (s : string) : string :=
  match s with
  | EmptyString => EmptyString
  | String c s' =>
      match rstrip s' with
      | EmptyString => if isspace c then EmptyString else String c EmptyString
      | r => String c r
      end
  end.

(** [s.strip()]. *)
Definition strip (s : string) : string := rstrip (lstrip s).

(** Simple lower-casing of a code point in 0..255, as [re.IGNORECASE] uses
    it on [str] patterns. *)
Definition lower_char (c : ascii) : ascii :=
  let n := code c in
  if ((65 <=? n) && (n <=? 90) || (192 <=? n) && (n <=? 214)
      || (216 <=? n) && (n <=? 222))%N
  then ascii_of_N (n + 32) else c.

Fixpoint lower (s : string) : string :=
  match s with
  | EmptyString => EmptyString
  | String c s' => String (lower_char c) (lower s')
  end.

(** [all(l)] on a list of strings. *)
Definition all_str (l : list string) : bool := forallb truthy_str l.

End Py.

(** ** Credential expander: [generate_usernames] *)

(** The loop body appends one name to [usernames]. *)
Definition username_at (base_username : string) (i : Z) : string :=
  if i =? 0 then base_username else base_username ++ Py.str_int i.

Definition generate_usernames (base_username : string) (start end_ : Z)
  : list string :=
  fold_left (fun usernames i => (usernames ++ [username_at base_username i])%list)
            (Py.range start (end_ + 1)) [].

(** ** Values decoded from JSON *)

(** The Python value [response.json()] returns: [None], a [bool], an [int],
    a [str], a [list] or a [dict] with string keys (in insertion order, keys
    distinct).  JSON numbers with a fraction or an exponent are not
    modelled. *)
#[warnings="-register-all"]
Inductive json : Type :=
| JNull
| JBool (b : bool)
| JInt (z : Z)
| JStr (s : string)
| JArr (items : list json)
| JObj (members : list (string * json)).

Module Json.

(** Truth value of a Python object, as [if profiles:] tests it. *)
Definition truthy (v : json) : bool :=
  match v with
  | JNull => false
  | JBool b => b
  | JInt z => negb (z =? 0)
  | JStr s => Py.truthy_str s
  | JArr items => match items with [] => false | _ :: _ => true end
  | JObj members => match members with [] => false | _ :: _ => true end
  end.

(** [d.get(key, default)] on a [dict]. *)
Fixpoint get (members : list (string * json)) (key : string) (default : json)
  : json :=
  match members with
  | [] => default
  | (k, v) :: rest => if String.eqb k key then v else get rest key default
  end.

End Json.

(** ** Outcomes of computations that may raise *)

(** The exceptions that escape the code; [ReError] is [re.error], raised for
    a pattern that does not compile. *)
Inductive exn : Type :=
| AttributeError
| TypeError
| KeyError (key : string)
| ReError.

Inductive result (A : Type) : Type :=
| Ok (a : A)
| Raise (e : exn).
Arguments Ok {A} a.
Arguments Raise {A} e.

(** ** The HTTP boundary *)

Inductive Method : Type := POST | GET | DELETE.

Record Request : Type := mkRequest {
  method : Method;
  url : string;
  headers : list (string * string);
  data : list (string * string)
}.

(** What [response.json()] does with the body: it returns the decoded value
    or raises [requests.exceptions.JSONDecodeError], which is a
    [RequestException]. *)
Inductive json_body : Type :=
| Decoded (v : json)
| JSONDecodeError (msg : string).

Record Response : Type := mkResponse {
  status_code : Z;
  reason : string;
  response_url : string;
  text : string;
  body : json_body
}.

(** A call of [requests] either returns a response or raises a
    [RequestException] whose [str] is [msg]. *)
Inductive Outcome : Type :=
| Responded (response : Response)
| RequestException (msg : string).

Definition History : Type := list Request.

(** [response.raise_for_status()]: the message of the [HTTPError] raised for
    a 4xx or 5xx status, [None] when nothing is raised. *)
Definition raise_for_status (response : Response) : option string :=
  let sc := status_code response in
  if (400 <=? sc) && (sc <? 500) then
    Some (Py.str_int sc ++ " Client Error: " ++ reason response
          ++ " for url: " ++ response_url response)
  else if (500 <=? sc) && (sc <? 600) then
    Some (Py.str_int sc ++ " Server Error: " ++ reason response
          ++ " for url: " ++ response_url response)
  else None.

(** [urllib.parse.quote(s)] with the default [safe='/']. *)
Module Quote.

Definition is_alnum (c : ascii) : bool :=
  let n := Py.code c in
  ((48 <=? n) && (n <=? 57) || (65 <=? n) && (n <=? 90)
   || (97 <=? n) && (n <=? 122))%N.

Definition always_safe (c : ascii) : bool :=
  is_alnum c || Ascii.eqb c "_" || Ascii.eqb c "." || Ascii.eqb c "-"
  || Ascii.eqb c "~".

Definition hex_digit (n : N) : ascii :=
  if (n <? 10)%N then ascii_of_N (48 + n) else ascii_of_N (55 + n).

(** [%XX] for one byte. *)
Definition percent (b : N) : string :=
  String "%" (String (hex_digit (b / 16)) (String (hex_digit (b mod 16)) EmptyString)).

(** A code point below 128 is one UTF-8 byte, one in 128..255 is two. *)
Definition quote_char (c : ascii) : string :=
  let n := Py.code c in
  if (n <? 128)%N then
    if always_safe c || Ascii.eqb c "/" then String c EmptyString else percent n
  else percent (192 + n / 64) ++ percent (128 + n mod 64).

Fixpoint quote (s : string) : string :=
  match s with
  | EmptyString => EmptyString
  | String c s' => quote_char c ++ quote s'
  end.

End Quote.

(** ** The token dictionary *)

(** A Python [dict] from usernames to tokens: an association list in
    insertion order with distinct keys. *)
Definition TokenDict : Type := list (string * string).

Module Dict.

(** [d[k] = v]: an existing key keeps its place. *)
Fixpoint set (d : TokenDict) (k v : string) : TokenDict :=
  match d with
  | [] => [(k, v)]
  | (k', v') :: d' =>
      if String.eqb k' k then (k, v) :: d' else (k', v') :: set d' k v
  end.

(** [d[k]], [None] standing for [KeyError]. *)
Fixpoint get (d : TokenDict) (k : string) : option string :=
  match d with
  | [] => None
  | (k', v') :: d' => if String.eqb k' k then Some v' else get d' k
  end.

Definition keys (d : TokenDict) : list string := map fst d.

End Dict.

(** ** Auth client and profile client *)

Section Network.

(** The gateway and everything behind it: the answer to a request, given
    the requests sent so far. *)
Variable env : History -> Request -> Outcome.

Definition send (req : Request) (h : History) : Outcome * History :=
  (env h req, (h ++ [req])%list).

Definition auth_request (username password gateway_url : string) : Request :=
  mkRequest POST ("https://" ++ gateway_url ++ "/auth")
    [("Content-Type", "application/x-www-form-urlencoded")]
    [("username", username); ("password", password);
     ("token", "true"); ("permissions", "true")].

(** Returns the pair [(token, error)]. *)
Definition get_auth_token (username password gateway_url : string)
    (h : History) : (option string * option string) * History :=
  let (outcome, h') := send (auth_request username password gateway_url) h in
  match outcome with
  | Responded response =>
      if status_code response =? 201 then
        let token := Py.strip (text response) in
        if Py.truthy_str token then ((Some token, None), h')
        else ((None, Some "Empty token received"), h')
      else
        ((None, Some ("HTTP " ++ Py.str_int (status_code response) ++ " - "
                      ++ text response)), h')
  | RequestException e => ((None, Some e), h')
  end.

Definition status_request (auth_token gateway_url : string) : Request :=
  mkRequest GET ("https://" ++ gateway_url ++ "/easm/v2/profile/status")
    [("accept", "*/*"); ("Authorization", "Bearer " ++ auth_token)] [].

(** Returns the pair [(profiles, error)]; [JNull] is Python's [None]. *)
Definition get_profile_status (auth_token gateway_url : string) (h : History)
  : (json * option string) * History :=
  let (outcome, h') := send (status_request auth_token gateway_url) h in
  match outcome with
  | Responded response =>
      match raise_for_status response with
      | Some e => ((JNull, Some e), h')
      | None =>
          match body response with
          | Decoded v => ((v, None), h')
          | JSONDecodeError e => ((JNull, Some e), h')
          end
      end
  | RequestException e => ((JNull, Some e), h')
  end.

Definition delete_request (auth_token gateway_url profile_name : string)
  : Request :=
  mkRequest DELETE
    ("https://" ++ gateway_url ++ "/easm/v2/profile?profileName="
     ++ Quote.quote profile_name)
    [("Authorization", "Bearer " ++ auth_token)] [].

(** Returns the pair [(success, error)]. *)
Definition delete_profile (auth_token gateway_url profile_name : string)
    (h : History) : (bool * option string) * History :=
  let (outcome, h') :=
    send (delete_request auth_token gateway_url profile_name) h in
  match outcome with
  | Responded response =>
      match raise_for_status response with
      | Some e => ((false, Some e), h')
      | None => ((true, None), h')
      end
  | RequestException e => ((false, Some e), h')
  end.

End Network.

(** ** The connect action (sidebar of [main]) *)

(** What the authentication loop shows per username: [st.success] or
    [st.error] with the error of the failed attempt. *)
Inductive ui_event : Type :=
| Authenticated (username : string)
| AuthFailed (username : string) (error : option string).

(** [st.error(msg); st.stop()] ends the run with the message; otherwise the
    token dictionary is stored in the session. *)
Inductive connect_outcome : Type :=
| Stopped (message : string)
| Connected (tokens : TokenDict) (log : list ui_event).

Definition MissingFieldsError : string :=
  "Please fill in all required fields.".

Definition InvalidRangeError : string :=
  "End number must be greater than or equal to start number.".

Section Connect.

Variable env : History -> Request -> Outcome.

(** The loop [for username in usernames] with its two running values;
    [if token:] holds for a non-empty string only. *)
Fixpoint authenticate_loop (usernames : list string)
    (password gateway_url : string) (tokens : TokenDict)
    (log : list ui_event) (h : History)
  : (TokenDict * list ui_event) * History :=
  match usernames with
  | [] => ((tokens, log), h)
  | username :: rest =>
      let '((token, error), h1) :=
        get_auth_token env username password gateway_url h in
      match token with
      | Some t =>
          if Py.truthy_str t then
            authenticate_loop rest password gateway_url
              (Dict.set tokens username t)
              (log ++ [Authenticated username])%list h1
          else
            authenticate_loop rest password gateway_url tokens
              (log ++ [AuthFailed username error])%list h1
      | None =>
          authenticate_loop rest password gateway_url tokens
            (log ++ [AuthFailed username error])%list h1
      end
  end.

Definition connect (gateway_url base_username password : string)
    (start_num end_num : Z) (h : History) : connect_outcome * History :=
  if negb (Py.all_str [gateway_url; base_username; password]) then
    (Stopped MissingFieldsError, h)
  else if end_num <? start_num then
    (Stopped InvalidRangeError, h)
  else
    let usernames := generate_usernames base_username start_num end_num in
    let '((tokens, log), h') :=
      authenticate_loop usernames password gateway_url [] [] h in
    (Connected tokens log, h').

End Connect.

(** ** Aggregator (main content of [main]) *)

Record ProfileRecord : Type := mkProfileRecord {
  username : string;
  profileName : json;
  status : json;
  lastConfiguredOn : json;
  nextScheduledSyncOn : json;
  lastDiscoveryCompletedOn : json
}.

(** The row appended when [profiles] is falsy. *)
Definition sentinel_row (username : string) : ProfileRecord :=
  mkProfileRecord username (JStr "N/A") (JStr "Status Retrieval Failed")
    (JStr "N/A") (JStr "N/A") (JStr "N/A").

(** The row appended for one element of [profiles]; only a [dict] has
    [.get]. *)
Definition profile_row (username : string) (profile : json)
  : result ProfileRecord :=
  match profile with
  | JObj members =>
      Ok (mkProfileRecord username
            (Json.get members "profileName" (JStr "N/A"))
            (Json.get members "status" (JStr "Unknown"))
            (Json.get members "lastConfiguredOn" (JStr "N/A"))
            (Json.get members "nextScheduledSyncOn" (JStr "N/A"))
            (Json.get members "lastDiscoveryCompletedOn" (JStr "N/A")))
  | _ => Raise AttributeError
  end.

(** What [for profile in profiles] iterates over: the items of a list, the
    keys of a dict, the characters of a string; other values are not
    iterable. *)
Definition iterate (profiles : json) : result (list json) :=
  match profiles with
  | JArr items => Ok items
  | JObj members => Ok (map (fun kv => JStr (fst kv)) members)
  | JStr s => Ok (map (fun c => JStr (String c EmptyString)) (list_ascii_of_string s))
  | _ => Raise TypeError
  end.

(** The inner loop, appending to [all_profiles]. *)
Fixpoint append_profiles (username : string) (profiles : list json)
    (all_profiles : list ProfileRecord) : result (list ProfileRecord) :=
  match profiles with
  | [] => Ok all_profiles
  | profile :: rest =>
      match profile_row username profile with
      | Ok row => append_profiles username rest (all_profiles ++ [row])%list
      | Raise e => Raise e
      end
  end.

(** The body of the outer loop for one identity, once its fetch returned. *)
Definition append_identity (username : string) (profiles : json)
    (all_profiles : list ProfileRecord) : result (list ProfileRecord) :=
  if Json.truthy profiles then
    match iterate profiles with
    | Ok items => append_profiles username items all_profiles
    | Raise e => Raise e
    end
  else Ok (all_profiles ++ [sentinel_row username])%list.

Section Aggregate.

Variable env : History -> Request -> Outcome.
Variable gateway_url : string.

Fixpoint aggregate_loop (tokens : TokenDict)
    (all_profiles : list ProfileRecord) (h : History)
  : result (list ProfileRecord) * History :=
  match tokens with
  | [] => (Ok all_profiles, h)
  | (username, token) :: rest =>
      let '((profiles, error), h1) :=
        get_profile_status env token gateway_url h in
      match append_identity username profiles all_profiles with
      | Ok all_profiles' => aggregate_loop rest all_profiles' h1
      | Raise e => (Raise e, h1)
      end
  end.

Definition aggregate (tokens : TokenDict) (h : History)
  : result (list ProfileRecord) * History :=
  aggregate_loop tokens [] h.

End Aggregate.

(** ** Bulk delete *)

(** One entry of [selected_profiles]. *)
Record Selection : Type := mkSelection {
  sel_username : string;
  sel_profileName : string
}.

Section BulkDelete.

Variable env : History -> Request -> Outcome.
Variable gateway_url : string.
Variable tokens : TokenDict.

(** The loop over [selected_profiles]; the progress bar and the status text
    are left out. *)
Fixpoint delete_loop (selected_profiles : list Selection)
    (delete_success : list string)
    (delete_failed : list (string * option string)) (h : History)
  : result (list string * list (string * option string)) * History :=
  match selected_profiles with
  | [] => (Ok (delete_success, delete_failed), h)
  | profile :: rest =>
      match Dict.get tokens (sel_username profile) with
      | None => (Raise (KeyError (sel_username profile)), h)
      | Some token =>
          let '((success, error), h1) :=
            delete_profile env token gateway_url (sel_profileName profile) h in
          if success then
            delete_loop rest (delete_success ++ [sel_profileName profile])%list
              delete_failed h1
          else
            delete_loop rest delete_success
              (delete_failed ++ [(sel_profileName profile, error)])%list h1
      end
  end.

Definition bulk_delete (selected_profiles : list Selection) (h : History)
  : result (list string * list (string * option string)) * History :=
  delete_loop selected_profiles [] [] h.

End BulkDelete.

(** ** Regular expressions, as [Series.str.contains] uses them

    [str.contains(pat, case=False)] compiles [pat] with [re.compile] under
    [re.IGNORECASE] and keeps the cells in which [search] finds a match.
    The fragment of the pattern syntax modelled here has literal characters,
    [.], [|], plain groups, the quantifiers [*], [+], [?] and a backslash
    before a character that is neither a letter nor a digit.  For any other
    pattern [compile] answers [Unmodelled] and nothing is stated. *)

Module Re.

Inductive regex : Type :=
| Void
| Eps
| Lit (c : ascii)
| Dot
| Cat (r1 r2 : regex)
| Alt (r1 r2 : regex)
| Star (r : regex).

Inductive compiled : Type :=
| Compiled (r : regex)
| Error
| Unmodelled.

(** A group under construction: the branches already closed by [|] and the
    items of the current branch, both latest first. *)
Record frame : Type := mkFrame {
  branches : list regex;
  items : list regex
}.

Definition empty_frame : frame := mkFrame [] [].

Definition seq_of (items : list regex) : regex :=
  fold_left (fun acc r => Cat r acc) items Eps.

Definition alt_of (branches : list regex) : regex :=
  match branches with
  | [] => Void
  | b :: rest => fold_left (fun acc r => Alt r acc) rest b
  end.

Definition push (r : regex) (f : frame) : frame :=
  mkFrame (branches f) (r :: items f).

Definition next_branch (f : frame) : frame :=
  mkFrame (seq_of (items f) :: branches f) [].

Definition close (f : frame) : regex :=
  alt_of (seq_of (items f) :: branches f).

Definition backslash : ascii := ascii_of_N 92.

Definition is_quantifier (c : ascii) : bool :=
  Ascii.eqb c "*" || Ascii.eqb c "+" || Ascii.eqb c "?".

Definition quantify (q : ascii) (r : regex) : regex :=
  if Ascii.eqb q "*" then Star r
  else if Ascii.eqb q "+" then Cat r (Star r)
  else Alt r Eps.

(** Characters whose meaning is outside the fragment. *)
Definition is_unmodelled (c : ascii) : bool :=
  Ascii.eqb c "[" || Ascii.eqb c "{" || Ascii.eqb c "^" || Ascii.eqb c "$".

(** The characters with a special meaning in a pattern. *)
Definition is_special (c : ascii) : bool :=
  is_quantifier c || is_unmodelled c || Ascii.eqb c "(" || Ascii.eqb c ")"
  || Ascii.eqb c "|" || Ascii.eqb c backslash || Ascii.eqb c ".".

(** The parser reads the pattern left to right.  [cur] is the innermost
    open group, [stack] the groups around it, and [repeated] tells that the
    last item has just received a quantifier. *)
Fixpoint parse (pat : string) (cur : frame) (stack : list frame)
    (repeated : bool) : compiled :=
  match pat with
  | EmptyString =>
      match stack with
      | [] => Compiled (close cur)
      | _ :: _ => Error
      end
  | String c rest =>
      if Ascii.eqb c "(" then
        match rest with
        | String "?" _ => Unmodelled
        | _ => parse rest empty_frame (cur :: stack) false
        end
      else if Ascii.eqb c ")" then
        match stack with
        | [] => Error
        | parent :: stack' => parse rest (push (close cur) parent) stack' false
        end
      else if Ascii.eqb c "|" then parse rest (next_branch cur) stack false
      else if is_quantifier c then
        match items cur with
        | [] => Error
        | r :: others =>
            if repeated then Unmodelled
            else parse rest (mkFrame (branches cur) (quantify c r :: others))
                       stack true
        end
      else if Ascii.eqb c backslash then
        match rest with
        | EmptyString => Error
        | String d rest' =>
            if Quote.is_alnum d then Unmodelled
            else parse rest' (push (Lit d) cur) stack false
        end
      else if is_unmodelled c then Unmodelled
      else if Ascii.eqb c "." then parse rest (push Dot cur) stack false
      else parse rest (push (Lit c) cur) stack false
  end.

(** [re.compile(pat, re.IGNORECASE)]. *)
Definition compile (pat : string) : compiled := parse pat empty_frame [] false.

(** Matching by derivatives.  A literal matches up to case; [.] matches
    every character but the newline. *)
Fixpoint nullable (r : regex) : bool :=
  match r with
  | Void => false
  | Eps => true
  | Lit _ => false
  | Dot => false
  | Cat r1 r2 => nullable r1 && nullable r2
  | Alt r1 r2 => nullable r1 || nullable r2
  | Star _ => true
  end.

Definition newline : ascii := ascii_of_N 10.

Fixpoint deriv (x : ascii) (r : regex) : regex :=
  match r with
  | Void => Void
  | Eps => Void
  | Lit c =>
      if Ascii.eqb (Py.lower_char x) (Py.lower_char c) then Eps else Void
  | Dot => if Ascii.eqb x newline then Void else Eps
  | Cat r1 r2 =>
      if nullable r1 then Alt (Cat (deriv x r1) r2) (deriv x r2)
      else Cat (deriv x r1) r2
  | Alt r1 r2 => Alt (deriv x r1) (deriv x r2)
  | Star r1 => Cat (deriv x r1) (Star r1)
  end.

(** Some prefix of [s] matches [r]. *)
Fixpoint match_prefix (r : regex) (s : string) : bool :=
  nullable r ||
  match s with
  | EmptyString => false
  | String x s' => match_prefix (deriv x r) s'
  end.

(** [pattern.search(s) is not None]: a match starts somewhere in [s]. *)
Fixpoint search (r : regex) (s : string) : bool :=
  match_prefix r s ||
  match s with
  | EmptyString => false
  | String _ s' => search r s'
  end.

(** The strings a pattern matches in full. *)
Inductive matches : regex -> string -> Prop :=
| MEps : matches Eps EmptyString
| MLit c x :
    Py.lower_char x = Py.lower_char c -> matches (Lit c) (String x EmptyString)
| MDot x : x <> newline -> matches Dot (String x EmptyString)
| MCat r1 r2 s1 s2 :
    matches r1 s1 -> matches r2 s2 -> matches (Cat r1 r2) (s1 ++ s2)
| MAltL r1 r2 s : matches r1 s -> matches (Alt r1 r2) s
| MAltR r1 r2 s : matches r2 s -> matches (Alt r1 r2) s
| MStarNil r : matches (Star r) EmptyString
| MStarApp r s1 s2 :
    matches r s1 -> matches (Star r) s2 -> matches (Star r) (s1 ++ s2).

End Re.

(** ** The search filter *)

(** A row of the data frame whose cells are all strings.  Cells of other
    types go through the data frame's type inference before they are turned
    into text, which is not modelled. *)
Record Row : Type := mkRow {
  row_username : string;
  row_profileName : string;
  row_status : string;
  row_lastConfiguredOn : string;
  row_nextScheduledSyncOn : string;
  row_lastDiscoveryCompletedOn : string
}.

Definition cells (row : Row) : list string :=
  [row_username row; row_profileName row; row_status row;
   row_lastConfiguredOn row; row_nextScheduledSyncOn row;
   row_lastDiscoveryCompletedOn row].

Definition frame_row (record : ProfileRecord) : option Row :=
  match profileName record, status record, lastConfiguredOn record,
        nextScheduledSyncOn record, lastDiscoveryCompletedOn record with
  | JStr p, JStr s, JStr l, JStr n, JStr d =>
      Some (mkRow (username record) p s l n d)
  | _, _, _, _, _ => None
  end.

(** [pd.DataFrame(all_profiles)] when every cell is a string. *)
Fixpoint to_frame (all_profiles : list ProfileRecord) : option (list Row) :=
  match all_profiles with
  | [] => Some []
  | record :: rest =>
      match frame_row record, to_frame rest with
      | Some row, Some rows => Some (row :: rows)
      | _, _ => None
      end
  end.

(** [row.astype(str).str.contains(search, case=False).any()]; [None] when
    the pattern is outside the modelled fragment. *)
Definition row_mask (search : string) (row : Row) : option (result bool) :=
  match Re.compile search with
  | Re.Compiled r => Some (Ok (existsb (Re.search r) (cells row)))
  | Re.Error => Some (Raise ReError)
  | Re.Unmodelled => None
  end.

(** [df.apply(..., axis=1)]: the mask, row by row. *)
Fixpoint apply_mask (search : string) (df : list Row)
  : option (result (list bool)) :=
  match df with
  | [] => Some (Ok [])
  | row :: rest =>
      match row_mask search row with
      | Some (Ok b) =>
          match apply_mask search rest with
          | Some (Ok mask) => Some (Ok (b :: mask))
          | other => other
          end
      | Some (Raise e) => Some (Raise e)
      | None => None
      end
  end.

(** [df[mask]]. *)
Definition select (df : list Row) (mask : list bool) : list Row :=
  map fst (filter snd (combine df mask)).

(** [if search: df = df[mask]]. *)
Definition search_filter (search : string) (df : list Row)
  : option (result (list Row)) :=
  if Py.truthy_str search then
    match apply_mask search df with
    | Some (Ok mask) => Some (Ok (select df mask))
    | Some (Raise e) => Some (Raise e)
    | None => None
    end
  else Some (Ok df).

(** The filter as the specification words it: the query is a substring of
    the text of some cell, letter case set aside. *)
Fixpoint is_substring (q s : string) : bool :=
  String.prefix q s ||
  match s with
  | EmptyString => false
  | String _ s' => is_substring q s'
  end.

Definition contains_ci (query s : string) : bool :=
  is_substring (Py.lower query) (Py.lower s).

Definition filter_spec (query : string) (records : list Row) : list Row :=
  filter (fun row => existsb (contains_ci query) (cells row)) records.

(** ** Status colours *)

Definition STATUS_COLORS : list (string * string) :=
  [("scheduled", "#BFDBFE");
   ("queued", "#FEF08A");
   ("inprogress", "#FED7AA");
   ("completed", "#BBF7D0");
   ("failed", "#FECACA");
   ("queued(retry)", "#FDE68A");
   ("inprogress(retry)", "#FDBA74");
   ("authenticationfailed", "#FCA5A5");
   ("statusretrievalfailed", "#FECACA")].

(** [s.replace(' ', '')]: every space is dropped. *)
Fixpoint remove_spaces (s : string) : string :=
  match s with
  | EmptyString => EmptyString
  | String c s' =>
      if Ascii.eqb c " " then remove_spaces s' else String c (remove_spaces s')
  end.

(** [table.get(key, default)] on a [dict] of strings. *)
Fixpoint colors_get (table : list (string * string)) (key default : string)
  : string :=
  match table with
  | [] => default
  | (k, v) :: rest =>
      if String.eqb k key then v else colors_get rest key default
  end.

(** The colour of the status badge of a row. *)
Definition status_color (status : string) : string :=
  colors_get STATUS_COLORS (remove_spaces (Py.lower status)) "#6B7280".

(** ** Row selection *)

(** The data frame with its index labels: [pd.DataFrame(all_profiles)] numbers
    the rows from 0, and [df[mask]] keeps the labels of the rows it keeps. *)
Definition label (df : list Row) : list (nat * Row) :=
  combine (seq 0 (List.length df)) df.

(** The rows [df.iterrows()] yields once the search filter is applied. *)
Definition visible_rows (search : string) (df : list Row)
  : option (result (list (nat * Row))) :=
  if Py.truthy_str search then
    match apply_mask search df with
    | Some (Ok mask) => Some (Ok (map fst (filter snd (combine (label df) mask))))
    | Some (Raise e) => Some (Raise e)
    | None => None
    end
  else Some (Ok (label df)).

(** The loop over the rows that fills [selected_profiles]; [checkbox idx] is
    what the checkbox with the key [select_idx] returns in this run. *)
Fixpoint selected_profiles (checkbox : nat -> bool) (rows : list (nat * Row))
  : list Selection :=
  match rows with
  | [] => []
  | (idx, row) :: rest =>
      if checkbox idx then
        mkSelection (row_username row) (row_profileName row)
        :: selected_profiles checkbox rest
      else selected_profiles checkbox rest
  end.

(** ** Definitions used in the statements *)

(** Prepending rows to the outcome of a run. *)
Definition with_rows (acc : list ProfileRecord)
    (run : result (list ProfileRecord) * History)
  : result (list ProfileRecord) * History :=
  match run with
  | (Ok rows, h) => (Ok (acc ++ rows)%list, h)
  | (Raise e, h) => (Raise e, h)
  end.

(** The value a row takes for [key] from a raw profile: the value bound to
    the key when there is one, the default text otherwise. *)
Definition field_from (members : list (string * json)) (key default : string)
    (value : json) : Prop :=
  (forall v, In (key, v) members -> value = v)
  /\ (~ In key (map fst members) -> value = JStr default).

(** A raw profile that is a JSON object, a [dict] with distinct keys. *)
Definition is_record (p : json) : Prop :=
  exists members, p = JObj members /\ NoDup (map fst members).

(** The delete requests of a list of selections, one for each selection
    whose owner has a token. *)
Definition delete_requests (tokens : TokenDict) (gateway_url : string)
    (selected : list Selection) : list Request :=
  flat_map
    (fun s =>
       match Dict.get tokens (sel_username s) with
       | Some token => [delete_request token gateway_url (sel_profileName s)]
       | None => []
       end)
    selected.

(** What the [i]-th attempt of a run started in [h] returns. *)
Definition attempt (env : History -> Request -> Outcome)
    (gateway_url : string) (tokens : TokenDict) (selected : list Selection)
    (h : History) (i : nat) (s : Selection) (token : string)
  : bool * option string :=
  fst (delete_profile env token gateway_url (sel_profileName s)
         (h ++ firstn i (delete_requests tokens gateway_url selected))%list).

(** A query without any character that is special in a pattern. *)
Fixpoint plain (query : string) : bool :=
  match query with
  | EmptyString => true
  | String c rest => negb (Re.is_special c) && plain rest
  end.

(** The pattern of a plain query: its characters in sequence. *)
Fixpoint literals (query : string) : Re.regex :=
  match query with
  | EmptyString => Re.Eps
  | String c rest => Re.Cat (Re.Lit c) (literals rest)
  end.

(** Reading back one character from the front of a quoted string. *)
Definition hex_value (c : ascii) : option N :=
  let n := Py.code c in
  if ((48 <=? n) && (n <=? 57))%N then Some (n - 48)%N
  else if ((65 <=? n) && (n <=? 70))%N then Some (n - 55)%N
  else None.

Definition read_byte (s : string) : option (N * string) :=
  match s with
  | String "%" (String hi (String lo rest)) =>
      match hex_value hi, hex_value lo with
      | Some a, Some b => Some ((16 * a + b)%N, rest)
      | _, _ => None
      end
  | _ => None
  end.

Definition decode_char (s : string) : option (ascii * string) :=
  match s with
  | EmptyString => None
  | String c rest =>
      if Ascii.eqb c "%" then
        match read_byte s with
        | Some (b, rest1) =>
            if (b <? 128)%N then Some (ascii_of_N b, rest1)
            else
              match read_byte rest1 with
              | Some (b2, rest2) =>
                  Some (ascii_of_N ((b - 192) * 64 + (b2 - 128)), rest2)
              | None => None
              end
        | None => None
        end
      else Some (c, rest)
  end.

(** The characters a quoted string is made of. *)
Definition url_safe (c : ascii) : bool :=
  Quote.always_safe c || Ascii.eqb c "/" || Ascii.eqb c "%".

Fixpoint all_chars (p : ascii -> bool) (s : string) : bool :=
  match s with
  | EmptyString => true
  | String c s' => p c && all_chars p s'
  end.

(** The first and the last character of a string. *)
Definition first_char (s : string) : option ascii :=
  match s with
  | EmptyString => None
  | String c _ => Some c
  end.

Fixpoint last_char (s : string) : option ascii :=
  match s with
  | EmptyString => None
  | String c EmptyString => Some c
  | String _ s' => last_char s'
  end.

(** A payload of a successful fetch that the aggregation turns into rows: a
    non-empty list of JSON objects. *)
Definition is_profile_list (profiles : json) : Prop :=
  exists items,
    profiles = JArr items /\ items <> []
    /\ Forall (fun p => exists members, p = JObj members) items.

(** The username an event of the authentication log is about. *)
Definition event_username (e : ui_event) : string :=
  match e with
  | Authenticated u => u
  | AuthFailed u _ => u
  end.

(** ** Sample data and environments *)


(** An environment in which every call fails at the transport level. *)
Definition env_down : History -> Request -> Outcome :=
  fun _ _ => RequestException "connection refused".

(** An environment that answers the [n]-th request with the [n]-th outcome
    of a script, whatever the request. *)
Definition scripted (script : list Outcome) : History -> Request -> Outcome :=
  fun h _ => nth (List.length h) script (RequestException "no more answers").

Definition answer (sc : Z) (why body_text : string) (v : json_body)
  : Outcome :=
  Responded (mkResponse sc why EmptyString body_text v).

(** Three identities; the second one gets a 500 answer. *)
Definition env_auth_500 : History -> Request -> Outcome :=
  scripted [answer 201 "Created" "tok0" (Decoded JNull);
            answer 500 "Internal Server Error" "Internal Server Error"
              (JSONDecodeError "Expecting value");
            answer 201 "Created" "tok2" (Decoded JNull)].

(** A raw profile without [lastConfiguredOn]. *)
Definition raw_alpha : json :=
  JObj [("profileName", JStr "alpha"); ("status", JStr "completed");
        ("nextScheduledSyncOn", JStr "2025-01-02");
        ("lastDiscoveryCompletedOn", JStr "2025-01-01")].

Definition sample_tokens : TokenDict :=
  [("easm", "tok0"); ("easm1", "tok1"); ("easm2", "tok2")].

(** The first fetch returns one profile, the second one times out, the
    third one returns no profile. *)
Definition env_fetch : History -> Request -> Outcome :=
  scripted [answer 200 "OK" EmptyString (Decoded (JArr [raw_alpha]));
            RequestException "timed out";
            answer 200 "OK" EmptyString (Decoded (JArr []))].

Definition sample_selection : list Selection :=
  [mkSelection "easm" "alpha"; mkSelection "easm1" "beta gamma";
   mkSelection "easm" "delta"].

(** The second delete is answered with a 404. *)
Definition env_delete : History -> Request -> Outcome :=
  scripted [answer 204 "No Content" EmptyString (JSONDecodeError "Expecting value");
            answer 404 "Not Found" EmptyString (JSONDecodeError "Expecting value");
            answer 200 "OK" EmptyString (JSONDecodeError "Expecting value")].

Definition row_completed : Row :=
  mkRow "easm" "alpha" "completed" "N/A" "N/A" "N/A".

Definition row_retry : Row :=
  mkRow "easm1" "beta" "queued(retry)" "N/A" "N/A" "N/A".

(** The first fetch times out, the second one is answered with a JSON
    object in place of the list of profiles. *)
Definition env_timeout_then_object : History -> Request -> Outcome :=
  scripted [RequestException "timed out";
            answer 200 "OK" EmptyString
              (Decoded (JObj [("message", JStr "maintenance")]))].

(** A 200 answer whose body is a JSON object, not a list of profiles. *)
Definition env_maintenance : History -> Request -> Outcome :=
  scripted [answer 200 "OK" EmptyString
              (Decoded (JObj [("message", JStr "maintenance")]))].

(** * Properties *)

(** ** Credential expander *)

Lemma fold_append_map (A B : Type) (f : A -> B) (l : list A) (acc : list B) :
  fold_left (fun out a => (out ++ [f a])%list) l acc = (acc ++ map f l)%list.
Proof.
  revert acc; induction l as [|a l IH]; intros acc; simpl.
  - now rewrite app_nil_r.
  - rewrite IH, <- app_assoc. reflexivity.
Qed.

Lemma generate_usernames_map (base : string) (start end_ : Z) :
  generate_usernames base start end_
  = map (username_at base) (Py.range start (end_ + 1)).
Proof. unfold generate_usernames. now rewrite fold_append_map. Qed.

Lemma range_length (start stop : Z) :
  List.length (Py.range start stop) = Z.to_nat (stop - start).
Proof. unfold Py.range. now rewrite length_map, length_seq. Qed.

Lemma range_nth_error (start stop : Z) (k : nat) :
  (k < Z.to_nat (stop - start))%nat ->
  nth_error (Py.range start stop) k = Some (start + Z.of_nat k).
Proof.
  intros Hk. unfold Py.range.
  rewrite nth_error_map, nth_error_seq.
  destruct (Nat.ltb_spec k (Z.to_nat (stop - start))); [reflexivity | lia].
Qed.

Lemma range_empty (start stop : Z) : stop <= start -> Py.range start stop = [].
Proof.
  intros H. unfold Py.range.
  replace (Z.to_nat (stop - start)) with 0%nat by lia. reflexivity.
Qed.

(** C3: for [0 <= start <= end], [generate_usernames] returns
    [end - start + 1] names in ascending order of the offset; offset 0 is
    the bare base name and an offset [i > 0] is the base name followed by
    the decimal text of [i]; [expand(base,0,0) = [base]] and
    [expand("x",1,3) = ["x1","x2","x3"]]. *)
Theorem generate_usernames_spec (base : string) (start end_ : Z) :
  0 <= start <= end_ ->
  List.length (generate_usernames base start end_) = Z.to_nat (end_ - start + 1)
  /\ (forall i, start <= i <= end_ ->
        nth_error (generate_usernames base start end_) (Z.to_nat (i - start))
        = Some (if i =? 0 then base else base ++ Py.str_int i))
  /\ generate_usernames base 0 0 = [base]
  /\ generate_usernames "x" 1 3 = ["x1"; "x2"; "x3"].
Proof.
  intros Hrange. rewrite generate_usernames_map.
  repeat split.
  - rewrite length_map, range_length. f_equal. lia.
  - intros i Hi. rewrite nth_error_map, range_nth_error by lia.
    simpl. unfold username_at.
    replace (start + Z.of_nat (Z.to_nat (i - start))) with i by lia.
    reflexivity.
Qed.

(** The range 2..4 of the base name "easm". *)
Lemma generate_usernames_spec_witness :
  0 <= 2 <= 4
  /\ List.length (generate_usernames "easm" 2 4) = 3%nat
  /\ nth_error (generate_usernames "easm" 2 4) 1 = Some "easm3".
Proof.
  split; [lia |].
  destruct (generate_usernames_spec "easm" 2 4 ltac:(lia)) as (Hlen & Hnth & _).
  split; [exact Hlen | exact (Hnth 3 ltac:(lia))].
Defined.

(** C2, as stated, does not hold: [generate_usernames] returns the empty
    list for a reversed range, and the connect action reports another error
    for an empty base name. *)
Lemma expand_invalid_range_counterexample :
  generate_usernames "x" 3 1 = []
  /\ ~ (forall env gateway_url base password start end_ h,
          end_ < start ->
          fst (connect env gateway_url base password start end_ h)
          = Stopped InvalidRangeError).
Proof.
  split; [reflexivity |].
  intros H.
  specialize (H env_down "gateway" EmptyString "secret" 3 1 [] ltac:(lia)).
  discriminate H.
Qed.

(** C2, amended: for [end < start] the expander itself returns the empty
    list; the range check belongs to the connect action, which stops with
    the invalid-range message, before any request is sent, when the three
    required fields are filled. *)
Theorem invalid_range_stops_connect
    (env : History -> Request -> Outcome)
    (gateway_url base password : string) (start end_ : Z) (h : History) :
  end_ < start ->
  generate_usernames base start end_ = []
  /\ (Py.all_str [gateway_url; base; password] = true ->
      connect env gateway_url base password start end_ h
      = (Stopped InvalidRangeError, h)).
Proof.
  intros Hlt. split.
  - rewrite generate_usernames_map, range_empty by lia. reflexivity.
  - intros Hall. unfold connect. rewrite Hall. simpl.
    destruct (Z.ltb_spec end_ start); [reflexivity | lia].
Qed.

(** The reversed range 3..1 with all fields filled. *)
Lemma invalid_range_stops_connect_witness :
  1 < 3
  /\ generate_usernames "easm" 3 1 = []
  /\ connect env_down "gateway" "easm" "secret" 3 1 []
     = (Stopped InvalidRangeError, []).
Proof.
  split; [lia |].
  destruct (invalid_range_stops_connect env_down "gateway" "easm" "secret"
              3 1 [] ltac:(lia)) as [Hempty Hstop].
  split; [exact Hempty | apply Hstop; reflexivity].
Defined.

(** ** Auth client *)

(** C5: [get_auth_token] returns a token exactly when the response has
    status 201 and a body that is not empty once stripped, and the token is
    the stripped body; another status gives the error text made of the
    status and the body; a transport failure gives its message.  One request
    is sent in every case. *)
Theorem get_auth_token_spec
    (env : History -> Request -> Outcome)
    (username password gateway_url : string) (h : History) :
  let request := auth_request username password gateway_url in
  let run := get_auth_token env username password gateway_url h in
  (forall token,
      fst (fst run) = Some token <->
      exists response,
        env h request = Responded response
        /\ status_code response = 201
        /\ Py.strip (text response) = token
        /\ token <> EmptyString)
  /\ (forall response,
        env h request = Responded response ->
        status_code response <> 201 ->
        fst run = (None, Some ("HTTP " ++ Py.str_int (status_code response)
                               ++ " - " ++ text response)))
  /\ (forall msg,
        env h request = RequestException msg -> fst run = (None, Some msg))
  /\ snd run = (h ++ [request])%list.
Proof.
  cbv zeta. unfold get_auth_token, send.
  destruct (env h (auth_request username password gateway_url))
    as [response | msg] eqn:Henv.
  - destruct (Z.eqb_spec (status_code response) 201) as [H201 | H201].
    + destruct (Py.strip (text response)) as [| c token'] eqn:Hstrip; simpl;
        (split; [| split; [| split; [| reflexivity]]]).
      * intros token; split; [discriminate |].
        intros (r & Hr & _ & Hs & Hne). injection Hr as <-.
        rewrite Hstrip in Hs. congruence.
      * intros r Hr Hne. injection Hr as <-. contradiction.
      * discriminate.
      * intros token; split.
        -- intros Htok. injection Htok as <-.
           exists response. repeat split; auto. discriminate.
        -- intros (r & Hr & _ & Hs & _). injection Hr as <-.
           rewrite Hstrip in Hs. now subst.
      * intros r Hr Hne. injection Hr as <-. contradiction.
      * discriminate.
    + simpl. split; [| split; [| split; [| reflexivity]]].
      * intros token; split; [discriminate |].
        intros (r & Hr & Hst & _). injection Hr as <-. contradiction.
      * intros r Hr _. now injection Hr as <-.
      * discriminate.
  - simpl. split; [| split; [| split; [| reflexivity]]].
    + intros token; split; [discriminate |].
      intros (r & Hr & _). discriminate.
    + discriminate.
    + intros m Hm. now injection Hm as <-.
Qed.

(** A 201 answer whose body is a token between spaces. *)
Lemma get_auth_token_spec_witness :
  fst (fst (get_auth_token (scripted [answer 201 "Created" "  tok0 " (Decoded JNull)])
              "easm" "secret" "gateway" []))
  = Some "tok0".
Proof.
  destruct (get_auth_token_spec
              (scripted [answer 201 "Created" "  tok0 " (Decoded JNull)])
              "easm" "secret" "gateway" []) as (Htoken & _).
  apply Htoken.
  exists (mkResponse 201 "Created" EmptyString "  tok0 " (Decoded JNull)).
  repeat split; try reflexivity. discriminate.
Defined.

Lemma get_auth_token_history
    (env : History -> Request -> Outcome) (u pw gw : string) (h : History) :
  snd (get_auth_token env u pw gw h) = (h ++ [auth_request u pw gw])%list.
Proof.
  unfold get_auth_token, send.
  destruct (env h (auth_request u pw gw)) as [response | msg];
    [| reflexivity].
  destruct (status_code response =? 201); [| reflexivity].
  destruct (Py.truthy_str (Py.strip (text response))); reflexivity.
Qed.

Lemma get_auth_token_500
    (env : History -> Request -> Outcome) (u pw gw : string) (h : History)
    (response : Response) :
  env h (auth_request u pw gw) = Responded response ->
  status_code response = 500 ->
  text response = "Internal Server Error" ->
  fst (get_auth_token env u pw gw h)
  = (None, Some "HTTP 500 - Internal Server Error").
Proof.
  intros Henv Hsc Htext. unfold get_auth_token, send.
  rewrite Henv, Hsc, Htext. reflexivity.
Qed.

(** *** The token dictionary *)

Lemma dict_get_set (d : TokenDict) (u t k : string) :
  Dict.get (Dict.set d u t) k
  = if String.eqb u k then Some t else Dict.get d k.
Proof.
  induction d as [| [k' v'] d IH]; simpl.
  - reflexivity.
  - destruct (String.eqb_spec k' u) as [-> | Hne]; simpl.
    + destruct (String.eqb u k); reflexivity.
    + rewrite IH.
      destruct (String.eqb_spec k' k) as [-> | Hne'].
      * destruct (String.eqb_spec u k) as [-> | _]; [congruence | reflexivity].
      * reflexivity.
Qed.

Section ConnectFacts.

Variable env : History -> Request -> Outcome.
Variables password gateway_url : string.

Abbreviation auth u h := (get_auth_token env u password gateway_url h).
Abbreviation loop us := (authenticate_loop env us password gateway_url).

(** A failed attempt leaves the dictionary as it was. *)
Lemma authenticate_loop_failure (u : string) (rest : list string)
    (tokens : TokenDict) (log : list ui_event) (h h1 : History)
    (error : option string) :
  auth u h = ((None, error), h1) ->
  loop (u :: rest) tokens log h
  = loop rest tokens (log ++ [AuthFailed u error])%list h1.
Proof. intros H. simpl. now rewrite H. Qed.

Lemma authenticate_loop_app (pre post : list string) (tokens : TokenDict)
    (log : list ui_event) (h : History) :
  loop (pre ++ post) tokens log h
  = let '((tokens1, log1), h1) := loop pre tokens log h in
    loop post tokens1 log1 h1.
Proof.
  revert tokens log h; induction pre as [| u pre IH]; intros tokens log h.
  - reflexivity.
  - simpl.
    destruct (get_auth_token env u password gateway_url h)
      as [[token error] h1].
    destruct token as [t |]; [destruct (Py.truthy_str t) |]; apply IH.
Qed.

Lemma authenticate_loop_history (us : list string) (tokens : TokenDict)
    (log : list ui_event) (h : History) :
  snd (loop us tokens log h)
  = (h ++ map (fun u => auth_request u password gateway_url) us)%list.
Proof.
  revert tokens log h; induction us as [| u us IH]; intros tokens log h; simpl.
  - now rewrite app_nil_r.
  - pose proof (get_auth_token_history env u password gateway_url h) as Hh.
    destruct (get_auth_token env u password gateway_url h)
      as [[token error] h1].
    simpl in Hh. subst h1.
    destruct token as [t |]; [destruct (Py.truthy_str t) |];
      rewrite IH, <- app_assoc; reflexivity.
Qed.

(** Identities outside the list keep their entry, or their absence. *)
Lemma authenticate_loop_preserves (us : list string) (tokens : TokenDict)
    (log : list ui_event) (h : History) (k : string) :
  ~ In k us ->
  Dict.get (fst (fst (loop us tokens log h))) k = Dict.get tokens k.
Proof.
  revert tokens log h; induction us as [| u us IH]; intros tokens log h Hk.
  - reflexivity.
  - simpl in Hk. simpl.
    destruct (get_auth_token env u password gateway_url h)
      as [[token error] h1].
    destruct token as [t |]; [destruct (Py.truthy_str t) |];
      rewrite IH by tauto; try reflexivity.
    rewrite dict_get_set.
    destruct (String.eqb_spec u k); [tauto | reflexivity].
Qed.

(** An entry of the final dictionary was there at the start or was returned
    by the authentication of that identity at its turn. *)
Lemma authenticate_loop_sound (us : list string) (tokens : TokenDict)
    (log : list ui_event) (h : History) (k v : string) :
  Dict.get (fst (fst (loop us tokens log h))) k = Some v ->
  Dict.get tokens k = Some v
  \/ exists pre post,
       us = (pre ++ k :: post)%list
       /\ fst (fst (auth k (h ++ map (fun u => auth_request u password
                                                 gateway_url) pre)%list))
          = Some v.
Proof.
  revert tokens log h; induction us as [| u us IH]; intros tokens log h Hget.
  - left. exact Hget.
  - simpl in Hget.
    pose proof (get_auth_token_history env u password gateway_url h) as Hh.
    destruct (get_auth_token env u password gateway_url h)
      as [[token error] h1] eqn:Hauth.
    simpl in Hh. subst h1.
    assert (Hlater : forall tokens' log',
      Dict.get (fst (fst (authenticate_loop env us password gateway_url
                            tokens' log'
                            (h ++ [auth_request u password gateway_url])%list)))
               k = Some v ->
      Dict.get tokens' k = Some v
      \/ exists pre post,
           (u :: us) = (pre ++ k :: post)%list
           /\ fst (fst (get_auth_token env k password gateway_url
                          (h ++ map (fun u => auth_request u password
                                                gateway_url) pre)%list))
              = Some v).
    { intros tokens' log' H'. apply IH in H'.
      destruct H' as [H' | (pre & post & -> & H')]; [now left | right].
      exists (u :: pre), post. split; [reflexivity |].
      simpl. now rewrite <- app_assoc in H'. }
    destruct token as [t |]; [destruct (Py.truthy_str t) |];
      apply Hlater in Hget; destruct Hget as [Hget | Hget]; auto.
    rewrite dict_get_set in Hget.
    destruct (String.eqb_spec u k) as [-> | Hne]; [| now left].
    injection Hget as ->. right. exists [], us. split; [reflexivity |].
    simpl. rewrite app_nil_r, Hauth. reflexivity.
Qed.

End ConnectFacts.

(** C6: an identity whose authentication fails, as with a 500 answer whose
    body is "Internal Server Error", gets no entry in the token dictionary;
    the entries of the identities before it are handed on unchanged to the
    rest of the loop and survive it; every entry of the final dictionary is a
    token that [get_auth_token] returned for that identity at its turn. *)
Theorem auth_failure_excludes_identity
    (env : History -> Request -> Outcome) (password gateway_url : string)
    (pre post : list string) (u : string) (h h1 h2 : History)
    (tokens1 : TokenDict) (log1 : list ui_event) (error : option string) :
  authenticate_loop env pre password gateway_url [] [] h
  = ((tokens1, log1), h1) ->
  get_auth_token env u password gateway_url h1 = ((None, error), h2) ->
  let final :=
    authenticate_loop env (pre ++ u :: post) password gateway_url [] [] h in
  final = authenticate_loop env post password gateway_url tokens1
            (log1 ++ [AuthFailed u error])%list h2
  /\ (~ In u pre -> ~ In u post -> Dict.get (fst (fst final)) u = None)
  /\ (forall k, ~ In k post ->
        Dict.get (fst (fst final)) k = Dict.get tokens1 k)
  /\ (forall k v,
        Dict.get (fst (fst final)) k = Some v ->
        exists pre' post',
          (pre ++ u :: post = pre' ++ k :: post')%list
          /\ fst (fst (get_auth_token env k password gateway_url
                         (h ++ map (fun n => auth_request n password
                                               gateway_url) pre')%list))
             = Some v)
  /\ (forall response,
        env h1 (auth_request u password gateway_url) = Responded response ->
        status_code response = 500 ->
        text response = "Internal Server Error" ->
        error = Some "HTTP 500 - Internal Server Error").
Proof.
  intros Hpre Hfail final.
  assert (Hfinal : final = authenticate_loop env post password gateway_url
                             tokens1 (log1 ++ [AuthFailed u error])%list h2).
  { unfold final. rewrite authenticate_loop_app, Hpre.
    now apply authenticate_loop_failure. }
  split; [exact Hfinal |].
  assert (Hkeep : forall k, ~ In k post ->
            Dict.get (fst (fst final)) k = Dict.get tokens1 k).
  { intros k Hk. rewrite Hfinal. now apply authenticate_loop_preserves. }
  split; [| split; [exact Hkeep | split]].
  - intros Hu_pre Hu_post. rewrite Hkeep by assumption.
    replace tokens1
      with (fst (fst (authenticate_loop env pre password gateway_url [] [] h)))
      by now rewrite Hpre.
    now rewrite authenticate_loop_preserves.
  - intros k v Hget. unfold final in Hget.
    apply authenticate_loop_sound in Hget.
    destruct Hget as [Hget | Hget]; [discriminate | exact Hget].
  - intros response Henv Hsc Htext.
    pose proof (get_auth_token_500 env u password gateway_url h1 response
                  Henv Hsc Htext) as H500.
    rewrite Hfail in H500. simpl in H500. congruence.
Qed.

(** The run of [env_auth_500]: "easm1" is left out, the others are kept. *)
Lemma auth_failure_excludes_identity_witness :
  let final :=
    authenticate_loop env_auth_500 ["easm"; "easm1"; "easm2"]
      "secret" "gateway" [] [] [] in
  Dict.get (fst (fst final)) "easm1" = None
  /\ Dict.get (fst (fst final)) "easm" = Some "tok0"
  /\ fst (fst final) = [("easm", "tok0"); ("easm2", "tok2")].
Proof.
  intros final.
  edestruct (auth_failure_excludes_identity env_auth_500 "secret" "gateway"
               ["easm"] ["easm2"] "easm1" [])
    as (Hfinal & Hexcluded & Hkept & _).
  - vm_compute. reflexivity.
  - vm_compute. reflexivity.
  - split; [| split].
    + apply Hexcluded; simpl; intros [H | []]; discriminate H.
    + unfold final. simpl app. rewrite Hkept.
      * reflexivity.
      * simpl; intros [H | []]; discriminate H.
    + reflexivity.
Defined.

(** ** Aggregator *)

Lemma get_profile_status_history
    (env : History -> Request -> Outcome) (token gw : string) (h : History) :
  snd (get_profile_status env token gw h)
  = (h ++ [status_request token gw])%list.
Proof.
  unfold get_profile_status, send.
  destruct (env h (status_request token gw)) as [response | msg];
    [| reflexivity].
  destruct (raise_for_status response); [reflexivity |].
  destruct (body response); reflexivity.
Qed.

(** A fetch that reports an error returns [None] for the profiles. *)
Lemma get_profile_status_failure
    (env : History -> Request -> Outcome) (token gw : string) (h : History)
    (err : string) :
  snd (fst (get_profile_status env token gw h)) = Some err ->
  fst (fst (get_profile_status env token gw h)) = JNull.
Proof.
  unfold get_profile_status, send.
  destruct (env h (status_request token gw)) as [response | msg];
    [| reflexivity].
  destruct (raise_for_status response); [reflexivity |].
  destruct (body response); [discriminate | reflexivity].
Qed.

(** The rows of one identity do not depend on the rows gathered before. *)
Lemma append_profiles_acc (u : string) (items : list json)
    (acc : list ProfileRecord) :
  append_profiles u items acc
  = match append_profiles u items [] with
    | Ok rows => Ok (acc ++ rows)%list
    | Raise e => Raise e
    end.
Proof.
  revert acc; induction items as [| p items IH]; intros acc; simpl.
  - now rewrite app_nil_r.
  - destruct (profile_row u p) as [row | e]; [| reflexivity].
    rewrite IH. rewrite (IH [row]).
    destruct (append_profiles u items []); [| reflexivity].
    now rewrite <- app_assoc.
Qed.

Lemma append_identity_acc (u : string) (profiles : json)
    (acc : list ProfileRecord) :
  append_identity u profiles acc
  = match append_identity u profiles [] with
    | Ok rows => Ok (acc ++ rows)%list
    | Raise e => Raise e
    end.
Proof.
  unfold append_identity.
  destruct (Json.truthy profiles); [| reflexivity].
  destruct (iterate profiles); [| reflexivity].
  apply append_profiles_acc.
Qed.

(** The rows of an identity carry its name, and there is at least one. *)
Lemma append_profiles_rows (u : string) (items : list json)
    (rows : list ProfileRecord) :
  append_profiles u items [] = Ok rows ->
  List.length rows = List.length items
  /\ Forall (fun r => username r = u) rows.
Proof.
  revert rows; induction items as [| p items IH]; intros rows; simpl.
  - intros H; injection H as <-. split; [reflexivity | constructor].
  - destruct (profile_row u p) as [row | e] eqn:Hrow; [| discriminate].
    rewrite append_profiles_acc.
    destruct (append_profiles u items []) as [rows' | e]; [| discriminate].
    intros H; injection H as <-.
    destruct (IH rows' eq_refl) as [Hlen Hall].
    split; [simpl; now rewrite Hlen |].
    constructor; [| exact Hall].
    destruct p; try discriminate. injection Hrow as <-. reflexivity.
Qed.

Lemma append_identity_rows (u : string) (profiles : json)
    (rows : list ProfileRecord) :
  append_identity u profiles [] = Ok rows ->
  rows <> [] /\ Forall (fun r => username r = u) rows.
Proof.
  unfold append_identity.
  destruct (Json.truthy profiles) eqn:Htruthy.
  - destruct (iterate profiles) as [items | e] eqn:Hiter; [| discriminate].
    intros H. apply append_profiles_rows in H. destruct H as [Hlen Hall].
    split; [| exact Hall].
    intros ->. simpl in Hlen.
    destruct items; [| discriminate].
    destruct profiles as [| | | s | l | m]; try discriminate;
      simpl in Hiter; injection Hiter as Hitems.
    + destruct s; [discriminate | discriminate].
    + subst l. discriminate.
    + destruct m; [discriminate | discriminate].
  - intros H; injection H as <-. split; [discriminate |].
    constructor; [reflexivity | constructor].
Qed.

Section AggregateFacts.

Variable env : History -> Request -> Outcome.
Variable gateway_url : string.

Abbreviation fetch token h := (get_profile_status env token gateway_url h).
Abbreviation agg_loop := (aggregate_loop env gateway_url).
Abbreviation agg := (aggregate env gateway_url).

Lemma aggregate_loop_acc (tokens : TokenDict) (acc : list ProfileRecord)
    (h : History) :
  agg_loop tokens acc h = with_rows acc (agg tokens h).
Proof.
  unfold aggregate.
  revert acc h; induction tokens as [| [u token] tokens IH]; intros acc h.
  - simpl. now rewrite app_nil_r.
  - simpl. destruct (fetch token h) as [[profiles error] h1].
    rewrite append_identity_acc.
    destruct (append_identity u profiles []) as [rows | e]; [| reflexivity].
    rewrite IH. rewrite (IH rows).
    destruct (aggregate_loop env gateway_url tokens [] h1) as [[rows' | e] h2];
      simpl; [now rewrite app_assoc | reflexivity].
Qed.

Lemma aggregate_app (pre post : TokenDict) (h : History) :
  agg (pre ++ post)%list h
  = match agg pre h with
    | (Ok rows, h1) => with_rows rows (agg post h1)
    | (Raise e, h1) => (Raise e, h1)
    end.
Proof.
  unfold aggregate.
  revert h; induction pre as [| [u token] pre IH]; intros h.
  - simpl. destruct (aggregate_loop env gateway_url post [] h) as [[rows | e] h1];
      reflexivity.
  - simpl. destruct (fetch token h) as [[profiles error] h1].
    destruct (append_identity u profiles []) as [rows | e]; [| reflexivity].
    rewrite !(aggregate_loop_acc _ rows). unfold aggregate. rewrite IH.
    destruct (aggregate_loop env gateway_url pre [] h1) as [[rows1 | e] h2];
      [simpl | reflexivity].
    destruct (aggregate_loop env gateway_url post [] h2) as [[rows2 | e] h3];
      simpl; [now rewrite app_assoc | reflexivity].
Qed.

(** The step for one identity. *)
Lemma aggregate_cons (u token : string) (rest : TokenDict) (h : History) :
  agg ((u, token) :: rest) h
  = match append_identity u (fst (fst (fetch token h))) [] with
    | Ok rows => with_rows rows (agg rest (snd (fetch token h)))
    | Raise e => (Raise e, snd (fetch token h))
    end.
Proof.
  unfold aggregate. simpl.
  destruct (fetch token h) as [[profiles error] h1]. simpl.
  destruct (append_identity u profiles []) as [rows | e]; [| reflexivity].
  apply aggregate_loop_acc.
Qed.

(** Every identity of the dictionary owns a row of the table, and every row
    is owned by an identity of the dictionary. *)
Lemma aggregate_owners (tokens : TokenDict) (h h' : History)
    (rows : list ProfileRecord) :
  agg tokens h = (Ok rows, h') ->
  (forall u, In u (Dict.keys tokens) -> exists r, In r rows /\ username r = u)
  /\ (forall r, In r rows -> In (username r) (Dict.keys tokens)).
Proof.
  revert h h' rows; induction tokens as [| [u token] tokens IH];
    intros h h' rows Hagg.
  - injection Hagg as <- _. split; [intros u [] | intros r []].
  - rewrite aggregate_cons in Hagg.
    destruct (append_identity u (fst (fst (fetch token h))) [])
      as [block | e] eqn:Hblock; [| discriminate].
    apply append_identity_rows in Hblock. destruct Hblock as [Hne Hall].
    destruct (agg tokens (snd (fetch token h))) as [[rows' | e] h2] eqn:Hrest;
      [| discriminate].
    simpl in Hagg. injection Hagg as <- _.
    destruct (IH _ _ _ Hrest) as [IHcover IHowned].
    split.
    + intros v [<- | Hv].
      * destruct block as [| r block]; [congruence |].
        exists r. split; [now left | now inversion Hall].
      * destruct (IHcover v Hv) as (r & Hr & Hname).
        exists r. split; [apply in_or_app; now right | exact Hname].
    + intros r Hr. apply in_app_or in Hr. destruct Hr as [Hr | Hr].
      * left. rewrite Forall_forall in Hall. symmetry. now apply Hall.
      * right. now apply IHowned.
Qed.

End AggregateFacts.

(** C1, as stated, does not hold for every mapping: here the fetch of the
    first identity fails, the fetch of the second one succeeds with a JSON
    object, and the aggregation raises, so there is no table and no row for
    the identity whose fetch failed. *)
Lemma aggregate_failure_sentinel_counterexample :
  snd (fst (get_profile_status env_timeout_then_object "tok0" "gateway" []))
  = Some "timed out"
  /\ fst (aggregate env_timeout_then_object "gateway"
             [("easm", "tok0"); ("easm1", "tok1")] [])
     = Raise AttributeError
  /\ ~ (exists rows,
          fst (aggregate env_timeout_then_object "gateway"
                 [("easm", "tok0"); ("easm1", "tok1")] [])
          = Ok rows).
Proof.
  split; [reflexivity | split; [reflexivity |]].
  intros (rows & H). discriminate H.
Qed.

(** C1, amended: when the fetch of one identity fails and the aggregation of
    the identities before it and of the identities after it returns their
    rows, the table holds exactly one row for it, the sentinel row (profile
    name "N/A", status "Status Retrieval Failed", the three timestamps
    "N/A"), between the rows of the identities before it and those of the
    identities after it; every identity of the dictionary owns at least one
    row of the table. *)
Theorem aggregate_failure_sentinel
    (env : History -> Request -> Outcome) (gateway_url : string)
    (pre post : TokenDict) (u token err : string)
    (rows_pre rows_post : list ProfileRecord) (h h1 h3 : History) :
  aggregate env gateway_url pre h = (Ok rows_pre, h1) ->
  snd (fst (get_profile_status env token gateway_url h1)) = Some err ->
  aggregate env gateway_url post
    (snd (get_profile_status env token gateway_url h1))
  = (Ok rows_post, h3) ->
  let tokens := (pre ++ (u, token) :: post)%list in
  let rows := (rows_pre ++ sentinel_row u :: rows_post)%list in
  aggregate env gateway_url tokens h = (Ok rows, h3)
  /\ sentinel_row u
     = mkProfileRecord u (JStr "N/A") (JStr "Status Retrieval Failed")
         (JStr "N/A") (JStr "N/A") (JStr "N/A")
  /\ (~ In u (Dict.keys pre) -> ~ In u (Dict.keys post) ->
      filter (fun r => String.eqb (username r) u) rows = [sentinel_row u])
  /\ (forall v, In v (Dict.keys tokens) ->
        exists r, In r rows /\ username r = v).
Proof.
  intros Hpre Hfail Hpost tokens rows.
  assert (Hagg : aggregate env gateway_url tokens h = (Ok rows, h3)).
  { unfold tokens, rows. rewrite aggregate_app, Hpre, aggregate_cons.
    rewrite (get_profile_status_failure _ _ _ _ _ Hfail). simpl.
    rewrite Hpost. reflexivity. }
  split; [exact Hagg | split; [reflexivity | split]].
  - intros Hu_pre Hu_post. unfold rows.
    destruct (aggregate_owners _ _ _ _ _ _ Hpre) as [_ Hown_pre].
    destruct (aggregate_owners _ _ _ _ _ _ Hpost) as [_ Hown_post].
    assert (Hnone : forall l : list ProfileRecord,
              (forall r, In r l -> username r <> u) ->
              filter (fun r => String.eqb (username r) u) l = []).
    { induction l as [| r l IHl]; intros Hl; [reflexivity |].
      simpl. destruct (String.eqb_spec (username r) u) as [Heq | _].
      - exfalso. apply (Hl r); [now left | exact Heq].
      - apply IHl. intros r' Hr'. apply Hl. now right. }
    rewrite filter_app. simpl. rewrite String.eqb_refl.
    rewrite !Hnone; [reflexivity | |].
    + intros r Hr Heq. apply Hu_post. rewrite <- Heq. now apply Hown_post.
    + intros r Hr Heq. apply Hu_pre. rewrite <- Heq. now apply Hown_pre.
  - apply (aggregate_owners _ _ _ _ _ _ Hagg).
Qed.

(** When every fetch fails the table still has one row per identity. *)
Lemma aggregate_total_failure
    (env : History -> Request -> Outcome) (gateway_url : string)
    (tokens : TokenDict) (h : History) :
  (forall token h0,
      snd (fst (get_profile_status env token gateway_url h0)) <> None) ->
  aggregate env gateway_url tokens h
  = (Ok (map (fun kv => sentinel_row (fst kv)) tokens),
     (h ++ map (fun kv => status_request (snd kv) gateway_url) tokens)%list).
Proof.
  intros Hfail.
  revert h; induction tokens as [| [u token] tokens IH]; intros h.
  - unfold aggregate. simpl. now rewrite app_nil_r.
  - rewrite aggregate_cons.
    destruct (snd (fst (get_profile_status env token gateway_url h)))
      as [err |] eqn:Herr; [| now apply Hfail in Herr].
    rewrite (get_profile_status_failure _ _ _ _ _ Herr). simpl.
    rewrite get_profile_status_history, IH. simpl.
    now rewrite <- app_assoc.
Qed.

(** C9: a fetch that succeeds with an empty list of profiles yields the
    sentinel row (profile name "N/A", status "Status Retrieval Failed",
    timestamps "N/A"), the very table a failed fetch yields; the sentinel
    row therefore does not tell a failed fetch from an empty account. *)
Theorem empty_profiles_yield_sentinel
    (env : History -> Request -> Outcome) (gateway_url : string)
    (u token : string) (rest : TokenDict) (acc : list ProfileRecord)
    (h h1 : History) :
  get_profile_status env token gateway_url h = ((JArr [], None), h1) ->
  aggregate_loop env gateway_url ((u, token) :: rest) acc h
  = aggregate_loop env gateway_url rest (acc ++ [sentinel_row u])%list h1
  /\ aggregate env gateway_url [(u, token)] h
     = (Ok [mkProfileRecord u (JStr "N/A") (JStr "Status Retrieval Failed")
              (JStr "N/A") (JStr "N/A") (JStr "N/A")], h1)
  /\ (forall env' h' err,
        snd (fst (get_profile_status env' token gateway_url h')) = Some err ->
        fst (aggregate env' gateway_url [(u, token)] h')
        = fst (aggregate env gateway_url [(u, token)] h)).
Proof.
  intros Hfetch. unfold aggregate. simpl. rewrite Hfetch. simpl.
  split; [reflexivity | split; [reflexivity |]].
  intros env' h' err Herr.
  pose proof (get_profile_status_failure _ _ _ _ _ Herr) as Hnull.
  destruct (get_profile_status env' token gateway_url h')
    as [[profiles error] h1'].
  simpl in Hnull. subst profiles. reflexivity.
Qed.

(** *** Fields of a row *)

Lemma json_get_absent (members : list (string * json)) (key : string)
    (default : json) :
  ~ In key (map fst members) -> Json.get members key default = default.
Proof.
  induction members as [| [k v] members IH]; simpl; intros Hno.
  - reflexivity.
  - destruct (String.eqb_spec k key) as [-> | _]; [tauto |].
    apply IH. tauto.
Qed.

Lemma json_get_present (members : list (string * json)) (key : string)
    (default v : json) :
  NoDup (map fst members) -> In (key, v) members ->
  Json.get members key default = v.
Proof.
  induction members as [| [k w] members IH]; simpl; intros Hnd Hin.
  - contradiction.
  - inversion Hnd as [| ? ? Hfresh Hnd']; subst.
    destruct Hin as [Heq | Hin].
    + injection Heq as -> ->. now rewrite String.eqb_refl.
    + destruct (String.eqb_spec k key) as [-> | _].
      * exfalso. apply Hfresh. apply (in_map fst) in Hin. exact Hin.
      * now apply IH.
Qed.

Lemma json_get_field (members : list (string * json)) (key default : string) :
  NoDup (map fst members) ->
  field_from members key default (Json.get members key (JStr default)).
Proof.
  intros Hnd. split.
  - intros v Hin. now apply json_get_present.
  - apply json_get_absent.
Qed.

Lemma append_profiles_records (u : string) (items : list json) :
  Forall is_record items ->
  exists rows,
    append_profiles u items [] = Ok rows
    /\ forall i p, nth_error items i = Some p ->
         exists row, nth_error rows i = Some row /\ profile_row u p = Ok row.
Proof.
  induction 1 as [| p items (members & -> & Hnd) _ (rows & Hrows & Hnth)].
  - exists []. split; [reflexivity |]. intros [| i] p H; discriminate H.
  - exists (mkProfileRecord u
              (Json.get members "profileName" (JStr "N/A"))
              (Json.get members "status" (JStr "Unknown"))
              (Json.get members "lastConfiguredOn" (JStr "N/A"))
              (Json.get members "nextScheduledSyncOn" (JStr "N/A"))
              (Json.get members "lastDiscoveryCompletedOn" (JStr "N/A"))
            :: rows).
    split.
    + simpl. rewrite append_profiles_acc, Hrows. reflexivity.
    + intros [| i] p Hp; simpl in Hp.
      * injection Hp as <-. eexists. split; reflexivity.
      * apply Hnth in Hp. exact Hp.
Qed.

(** C7: when a fetch succeeds with a non-empty list of raw profiles that
    are JSON objects, each of them becomes one row of the table, whatever
    fields it lacks: a field present in the element is carried over
    unchanged, a missing one takes "N/A" ("Unknown" for the status), and the
    aggregation goes on with the next identity; an element without
    [lastConfiguredOn] gets [lastConfiguredOn = "N/A"]. *)
Theorem missing_fields_default
    (env : History -> Request -> Outcome) (gateway_url : string)
    (u token : string) (rest : TokenDict) (acc : list ProfileRecord)
    (h h1 : History) (items : list json) :
  get_profile_status env token gateway_url h = ((JArr items, None), h1) ->
  items <> [] ->
  Forall is_record items ->
  exists rows,
    aggregate_loop env gateway_url ((u, token) :: rest) acc h
    = aggregate_loop env gateway_url rest (acc ++ rows)%list h1
    /\ List.length rows = List.length items
    /\ forall i members,
         nth_error items i = Some (JObj members) ->
         exists row,
           nth_error rows i = Some row
           /\ username row = u
           /\ field_from members "profileName" "N/A" (profileName row)
           /\ field_from members "status" "Unknown" (status row)
           /\ field_from members "lastConfiguredOn" "N/A"
                (lastConfiguredOn row)
           /\ field_from members "nextScheduledSyncOn" "N/A"
                (nextScheduledSyncOn row)
           /\ field_from members "lastDiscoveryCompletedOn" "N/A"
                (lastDiscoveryCompletedOn row)
           /\ (~ In "lastConfiguredOn" (map fst members) ->
               lastConfiguredOn row = JStr "N/A").
Proof.
  intros Hfetch Hne Hrec.
  destruct (append_profiles_records u items Hrec) as (rows & Hrows & Hnth).
  exists rows. split; [| split].
  - simpl. rewrite Hfetch. unfold append_identity.
    destruct items as [| p items]; [congruence |].
    cbn [Json.truthy iterate].
    rewrite append_profiles_acc, Hrows. reflexivity.
  - now apply append_profiles_rows in Hrows.
  - intros i members Hi.
    destruct (Hnth i _ Hi) as (row & Hrow & Hmk).
    exists row. split; [exact Hrow |].
    assert (Hnd : NoDup (map fst members)).
    { apply nth_error_In in Hi. rewrite Forall_forall in Hrec.
      destruct (Hrec _ Hi) as (m & Hm & Hnd). now injection Hm as <-. }
    simpl in Hmk. injection Hmk as <-. simpl.
    repeat (split; [first [reflexivity | now apply json_get_field] |]).
    apply json_get_absent.
Qed.

Ltac concrete_nodup :=
  repeat constructor; simpl; intuition discriminate.

(** The run of [env_fetch] over the three sample identities. *)
Lemma aggregate_failure_sentinel_witness :
  fst (aggregate env_fetch "gateway" sample_tokens [])
  = Ok [mkProfileRecord "easm" (JStr "alpha") (JStr "completed") (JStr "N/A")
          (JStr "2025-01-02") (JStr "2025-01-01");
        sentinel_row "easm1"; sentinel_row "easm2"]
  /\ filter (fun r => String.eqb (username r) "easm1")
       [mkProfileRecord "easm" (JStr "alpha") (JStr "completed") (JStr "N/A")
          (JStr "2025-01-02") (JStr "2025-01-01");
        sentinel_row "easm1"; sentinel_row "easm2"]
     = [sentinel_row "easm1"].
Proof.
  edestruct aggregate_failure_sentinel
    with (env := env_fetch) (gateway_url := "gateway")
         (pre := [("easm", "tok0")]) (post := [("easm2", "tok2")])
         (u := "easm1") (token := "tok1") (err := "timed out")
         (h := @nil Request)
    as (Hagg & _ & Hone & _).
  - vm_compute. reflexivity.
  - vm_compute. reflexivity.
  - vm_compute. reflexivity.
  - split.
    + change sample_tokens
        with ([("easm", "tok0")] ++ ("easm1", "tok1") :: [("easm2", "tok2")])%list.
      rewrite Hagg. reflexivity.
    + apply Hone; simpl; intros [H | []]; discriminate H.
Defined.

(** A 200 answer with an empty list: no error, and the sentinel row. *)
Lemma empty_profiles_yield_sentinel_witness :
  let env := scripted [answer 200 "OK" "[]" (Decoded (JArr []))] in
  snd (fst (get_profile_status env "tok0" "gateway" [])) = None
  /\ fst (aggregate env "gateway" [("easm", "tok0")] [])
     = Ok [sentinel_row "easm"].
Proof.
  intros env. split; [reflexivity |].
  edestruct empty_profiles_yield_sentinel
    with (env := env) (gateway_url := "gateway") (u := "easm")
         (token := "tok0") (rest := @nil (string * string))
         (acc := @nil ProfileRecord) (h := @nil Request)
    as (_ & Hagg & _).
  - vm_compute. reflexivity.
  - rewrite Hagg. reflexivity.
Defined.

(** The raw profile [raw_alpha], which has no [lastConfiguredOn]. *)
Lemma missing_fields_default_witness :
  exists row,
    fst (aggregate env_fetch "gateway" [("easm", "tok0")] []) = Ok [row]
    /\ lastConfiguredOn row = JStr "N/A"
    /\ status row = JStr "completed".
Proof.
  edestruct missing_fields_default
    with (env := env_fetch) (gateway_url := "gateway") (u := "easm")
         (token := "tok0") (rest := @nil (string * string))
         (acc := @nil ProfileRecord) (h := @nil Request)
         (items := [raw_alpha])
    as (rows & Hagg & Hlen & Hrows).
  - vm_compute. reflexivity.
  - discriminate.
  - constructor; [| constructor].
    eexists. split; [reflexivity | concrete_nodup].
  - destruct (Hrows 0%nat _ eq_refl)
      as (row & Hrow & _ & _ & [Hstatus _] & _ & _ & _ & Hlast).
    destruct rows as [| row0 [| row1 rows]]; try discriminate Hlen.
    injection Hrow as ->.
    exists row. split; [| split].
    + unfold aggregate. rewrite Hagg. reflexivity.
    + apply Hlast. simpl. intuition discriminate.
    + apply Hstatus. simpl. auto.
Defined.

(** ** Bulk delete *)

Lemma delete_profile_history
    (env : History -> Request -> Outcome) (token gw name : string)
    (h : History) :
  snd (delete_profile env token gw name h)
  = (h ++ [delete_request token gw name])%list.
Proof.
  unfold delete_profile, send.
  destruct (env h (delete_request token gw name)) as [response | msg];
    [| reflexivity].
  destruct (raise_for_status response); reflexivity.
Qed.

Section BulkDeleteFacts.

Variable env : History -> Request -> Outcome.
Variable gateway_url : string.
Variable tokens : TokenDict.

Abbreviation delete token name h :=
  (delete_profile env token gateway_url name h).
Abbreviation requests selected :=
  (delete_requests tokens gateway_url selected).
Abbreviation attempt_of selected h i s token :=
  (attempt env gateway_url tokens selected h i s token).

Lemma delete_loop_spec (selected : list Selection)
    (delete_success : list string)
    (delete_failed : list (string * option string)) (h : History) :
  (forall s, In s selected -> Dict.get tokens (sel_username s) <> None) ->
  exists succeeded failed,
    delete_loop env gateway_url tokens selected delete_success delete_failed h
    = (Ok ((delete_success ++ succeeded)%list, (delete_failed ++ failed)%list),
       (h ++ requests selected)%list)
    /\ (List.length succeeded + List.length failed = List.length selected)%nat
    /\ forall i s token,
         nth_error selected i = Some s ->
         Dict.get tokens (sel_username s) = Some token ->
         (fst (attempt_of selected h i s token) = true ->
          In (sel_profileName s) succeeded)
         /\ (fst (attempt_of selected h i s token) = false ->
             In (sel_profileName s, snd (attempt_of selected h i s token))
                failed).
Proof.
  revert delete_success delete_failed h.
  induction selected as [| s rest IH]; intros ok ko h Htok.
  - exists [], []. simpl. rewrite !app_nil_r.
    split; [reflexivity | split; [reflexivity |]].
    intros [| i] s token H; discriminate H.
  - assert (Hrest : forall s', In s' rest ->
                      Dict.get tokens (sel_username s') <> None)
      by (intros s' Hs'; apply Htok; now right).
    destruct (Dict.get tokens (sel_username s)) as [token |] eqn:Hget;
      [| exfalso; apply (Htok s); [now left | exact Hget]].
    pose proof (delete_profile_history env token gateway_url
                  (sel_profileName s) h) as Hh.
    destruct (delete token (sel_profileName s) h) as [[success error] h1]
      eqn:Hdel.
    simpl in Hh. subst h1.
    assert (Hreq : requests (s :: rest)
                   = delete_request token gateway_url (sel_profileName s)
                     :: requests rest).
    { unfold delete_requests. simpl. now rewrite Hget. }
    assert (Hlater : forall i s' token' (S : list string)
                       (F : list (string * option string)),
      (fst (attempt_of rest
              (h ++ [delete_request token gateway_url (sel_profileName s)])%list
              i s' token') = true -> In (sel_profileName s') S)
      /\ (fst (attempt_of rest
                 (h ++ [delete_request token gateway_url (sel_profileName s)])%list
                 i s' token') = false ->
          In (sel_profileName s',
              snd (attempt_of rest
                     (h ++ [delete_request token gateway_url
                              (sel_profileName s)])%list i s' token')) F) ->
      (fst (attempt_of (s :: rest) h (Datatypes.S i) s' token') = true ->
       In (sel_profileName s') S)
      /\ (fst (attempt_of (s :: rest) h (Datatypes.S i) s' token') = false ->
          In (sel_profileName s',
              snd (attempt_of (s :: rest) h (Datatypes.S i) s' token')) F)).
    { intros i s' token' S F H. unfold attempt in *.
      rewrite Hreq. simpl firstn.
      now rewrite <- app_assoc in H. }
    assert (Hfirst : attempt_of (s :: rest) h 0 s token = (success, error)).
    { unfold attempt. simpl firstn. now rewrite app_nil_r, Hdel. }
    destruct success.
    + destruct (IH (ok ++ [sel_profileName s])%list ko
                  (h ++ [delete_request token gateway_url (sel_profileName s)])%list
                  Hrest) as (S & F & Hrun & Hlen & Hidx).
      exists (sel_profileName s :: S), F.
      split; [| split].
      * rewrite Hreq. cbn [delete_loop]. rewrite Hget, Hdel, Hrun.
        now rewrite <- !app_assoc.
      * simpl. now rewrite Hlen.
      * intros [| i] s' token' Hnth Hget'; simpl in Hnth.
        -- injection Hnth as <-. rewrite Hget in Hget'.
           injection Hget' as <-. rewrite Hfirst. simpl.
           split; [auto | discriminate].
        -- destruct (Hlater i s' token' S F (Hidx i s' token' Hnth Hget'))
             as [Htrue Hfalse].
           split; [intros H; right; now apply Htrue | exact Hfalse].
    + destruct (IH ok (ko ++ [(sel_profileName s, error)])%list
                  (h ++ [delete_request token gateway_url (sel_profileName s)])%list
                  Hrest) as (S & F & Hrun & Hlen & Hidx).
      exists S, ((sel_profileName s, error) :: F).
      split; [| split].
      * rewrite Hreq. cbn [delete_loop]. rewrite Hget, Hdel, Hrun.
        now rewrite <- !app_assoc.
      * simpl. rewrite <- Hlen. lia.
      * intros [| i] s' token' Hnth Hget'; simpl in Hnth.
        -- injection Hnth as <-. rewrite Hget in Hget'.
           injection Hget' as <-. rewrite Hfirst. simpl.
           split; [discriminate | auto].
        -- destruct (Hlater i s' token' S F (Hidx i s' token' Hnth Hget'))
             as [Htrue Hfalse].
           split; [exact Htrue | intros H; right; now apply Hfalse].
Qed.

End BulkDeleteFacts.

(** C4: [bulk_delete] sends one delete request per selection, in the order
    of the selections, whether or not earlier deletes failed; the name of
    a selection whose delete succeeded is in [succeeded], the name and the
    error of one whose delete failed is in [failed], and the two lists
    together have one entry per selection.  With three selections of which
    only the second fails, [succeeded] is the first and the third name and
    [failed] is the second name with its error. *)
Theorem bulk_delete_attempts_all
    (env : History -> Request -> Outcome) (gateway_url : string)
    (tokens : TokenDict) (selected : list Selection) (h : History) :
  (forall s, In s selected -> Dict.get tokens (sel_username s) <> None) ->
  exists succeeded failed,
    bulk_delete env gateway_url tokens selected h
    = (Ok (succeeded, failed),
       (h ++ delete_requests tokens gateway_url selected)%list)
    /\ Forall2
         (fun s request =>
            exists token,
              Dict.get tokens (sel_username s) = Some token
              /\ request
                 = delete_request token gateway_url (sel_profileName s))
         selected (delete_requests tokens gateway_url selected)
    /\ (List.length succeeded + List.length failed = List.length selected)%nat
    /\ (forall i s token,
          nth_error selected i = Some s ->
          Dict.get tokens (sel_username s) = Some token ->
          let outcome := attempt env gateway_url tokens selected h i s token in
          (fst outcome = true -> In (sel_profileName s) succeeded)
          /\ (fst outcome = false ->
              In (sel_profileName s, snd outcome) failed))
    /\ (forall s1 s2 s3 t1 t2 t3 error h1 h2 h3,
          selected = [s1; s2; s3] ->
          Dict.get tokens (sel_username s1) = Some t1 ->
          Dict.get tokens (sel_username s2) = Some t2 ->
          Dict.get tokens (sel_username s3) = Some t3 ->
          delete_profile env t1 gateway_url (sel_profileName s1) h
          = ((true, None), h1) ->
          delete_profile env t2 gateway_url (sel_profileName s2) h1
          = ((false, error), h2) ->
          delete_profile env t3 gateway_url (sel_profileName s3) h2
          = ((true, None), h3) ->
          succeeded = [sel_profileName s1; sel_profileName s3]
          /\ failed = [(sel_profileName s2, error)]).
Proof.
  intros Htok.
  destruct (delete_loop_spec env gateway_url tokens selected [] [] h Htok)
    as (succeeded & failed & Hrun & Hlen & Hidx).
  exists succeeded, failed. simpl in Hrun.
  split; [exact Hrun | split; [| split; [exact Hlen | split; [exact Hidx |]]]].
  - clear Hrun Hlen Hidx. induction selected as [| s rest IH].
    + constructor.
    + unfold delete_requests. simpl.
      destruct (Dict.get tokens (sel_username s)) as [token |] eqn:Hget.
      * simpl. constructor.
        -- exists token. split; [exact Hget | reflexivity].
        -- apply IH. intros s' Hs'. apply Htok. now right.
      * exfalso. apply (Htok s); [now left | exact Hget].
  - intros s1 s2 s3 t1 t2 t3 error h1 h2 h3 -> Ht1 Ht2 Ht3 Hd1 Hd2 Hd3.
    unfold bulk_delete in Hrun. simpl in Hrun.
    rewrite Ht1, Hd1, Ht2, Hd2, Ht3, Hd3 in Hrun. simpl in Hrun.
    injection Hrun as <- <- _. split; reflexivity.
Qed.

(** The run of [env_delete] over the three sample selections. *)
Lemma bulk_delete_attempts_all_witness :
  fst (bulk_delete env_delete "gateway" sample_tokens sample_selection [])
  = Ok (["alpha"; "delta"],
        [("beta gamma", Some "404 Client Error: Not Found for url: ")]).
Proof.
  edestruct bulk_delete_attempts_all
    with (env := env_delete) (gateway_url := "gateway")
         (tokens := sample_tokens) (selected := sample_selection)
         (h := @nil Request)
    as (succeeded & failed & Hrun & _ & _ & _ & Hthree).
  - intros s Hs. simpl in Hs.
    destruct Hs as [<- | [<- | [<- | []]]]; discriminate.
  - edestruct Hthree as [Hok Hko].
    + reflexivity.
    + reflexivity.
    + reflexivity.
    + reflexivity.
    + vm_compute. reflexivity.
    + vm_compute. reflexivity.
    + vm_compute. reflexivity.
    + rewrite Hrun, Hok, Hko. reflexivity.
Defined.

(** ** Search filter *)

Module ReFacts.
Import Re.

Lemma append_eq_nil (a b : string) :
  a ++ b = EmptyString -> a = EmptyString /\ b = EmptyString.
Proof. destruct a; simpl; [auto | discriminate]. Qed.

Lemma nullable_correct (r : regex) :
  nullable r = true <-> matches r EmptyString.
Proof.
  induction r as [| | c | | r1 IH1 r2 IH2 | r1 IH1 r2 IH2 | r IH]; simpl.
  - split; [discriminate | intros H; inversion H].
  - split; [constructor | reflexivity].
  - split; [discriminate | intros H; inversion H].
  - split; [discriminate | intros H; inversion H].
  - rewrite andb_true_iff, IH1, IH2. split.
    + intros [H1 H2]. change EmptyString with (EmptyString ++ EmptyString).
      now constructor.
    + intros H. inversion H as [| | | ? ? s1 s2 H1 H2 | | | |]; subst.
      match goal with
      | Heq : _ ++ _ = EmptyString |- _ =>
          apply append_eq_nil in Heq; destruct Heq as [-> ->]
      end.
      auto.
  - rewrite orb_true_iff, IH1, IH2. split.
    + intros [H | H]; [now apply MAltL | now apply MAltR].
    + intros H. inversion H; subst; auto.
  - split; [constructor | reflexivity].
Qed.

(** A non-empty match of a star starts with a non-empty match of its body. *)
Lemma star_cons (r : regex) (s : string) :
  matches (Star r) s ->
  forall x t, s = String x t ->
  exists t1 t2,
    t = t1 ++ t2 /\ matches r (String x t1) /\ matches (Star r) t2.
Proof.
  intros H. remember (Star r) as r' eqn:Hr'.
  induction H as [| | | | | | r0 | r0 s1 s2 H1 _ H2 IH2]; try discriminate.
  injection Hr' as ->. intros x t Heq.
  destruct s1 as [| y s1]; simpl in Heq.
  - now apply IH2.
  - injection Heq as -> <-. exists s1, s2. auto.
Qed.

Lemma deriv_correct (r : regex) (x : ascii) (s : string) :
  matches (deriv x r) s <-> matches r (String x s).
Proof.
  revert s.
  induction r as [| | c | | r1 IH1 r2 IH2 | r1 IH1 r2 IH2 | r IH];
    intros s; simpl.
  - split; intros H; inversion H.
  - split; intros H; inversion H.
  - destruct (Ascii.eqb_spec (Py.lower_char x) (Py.lower_char c)) as [He | Hne].
    + split; intros H; inversion H; subst; now constructor.
    + split; intros H; inversion H; subst; contradiction.
  - destruct (Ascii.eqb_spec x newline) as [He | Hne].
    + split; intros H; inversion H; subst; contradiction.
    + split; intros H; inversion H; subst; now constructor.
  - assert (Hcat : matches (Cat (deriv x r1) r2) s ->
                   matches (Cat r1 r2) (String x s)).
    { intros H. inversion H as [| | | ? ? s1 s2 H1 H2 | | | |]; subst.
      apply IH1 in H1. change (String x (s1 ++ s2)) with (String x s1 ++ s2).
      now constructor. }
    assert (Hinv : matches (Cat r1 r2) (String x s) ->
                   matches (Cat (deriv x r1) r2) s
                   \/ (matches r1 EmptyString /\ matches (deriv x r2) s)).
    { intros H. remember (String x s) as xs eqn:Heq.
      inversion H as [| | | ? ? s1 s2 H1 H2 | | | |]; subst.
      match goal with Heq : _ ++ _ = String _ _ |- _ => rename Heq into Heq' end.
      destruct s1 as [| y s1]; simpl in Heq'.
      - subst s2. right. split; [exact H1 | now apply IH2].
      - injection Heq' as -> <-. left.
        constructor; [now apply IH1 | exact H2]. }
    destruct (nullable r1) eqn:Hnull.
    + split.
      * intros H. inversion H; subst; [now apply Hcat |].
        change (String x s) with (EmptyString ++ String x s).
        constructor; [now apply nullable_correct | now apply IH2].
      * intros H. destruct (Hinv H) as [H' | [_ H']];
          [now apply MAltL | now apply MAltR].
    + split; [exact Hcat |].
      intros H. destruct (Hinv H) as [H' | [H' _]]; [exact H' |].
      apply nullable_correct in H'. congruence.
  - split.
    + intros H. inversion H; subst;
        [apply MAltL; now apply IH1 | apply MAltR; now apply IH2].
    + intros H. inversion H; subst;
        [apply MAltL; now apply IH1 | apply MAltR; now apply IH2].
  - split.
    + intros H. inversion H as [| | | ? ? s1 s2 H1 H2 | | | |]; subst.
      apply IH in H1. change (String x (s1 ++ s2)) with (String x s1 ++ s2).
      now constructor.
    + intros H. destruct (star_cons _ _ H x s eq_refl) as (t1 & t2 & -> & H1 & H2).
      constructor; [now apply IH | exact H2].
Qed.

(** [match_prefix] finds the prefixes in the language of the pattern. *)
Lemma match_prefix_correct (r : regex) (s : string) :
  match_prefix r s = true <-> exists p t, s = p ++ t /\ matches r p.
Proof.
  revert r; induction s as [| x s IH]; intros r; simpl.
  - rewrite orb_false_r, nullable_correct. split.
    + intros H. exists EmptyString, EmptyString. auto.
    + intros (p & t & Heq & H). symmetry in Heq.
      apply append_eq_nil in Heq. destruct Heq as [-> _]. exact H.
  - rewrite orb_true_iff, nullable_correct, IH. split.
    + intros [H | (p & t & -> & H)].
      * exists EmptyString, (String x s). auto.
      * exists (String x p), t. split; [reflexivity | now apply deriv_correct].
    + intros (p & t & Heq & H). destruct p as [| y p]; simpl in Heq.
      * now left.
      * injection Heq as <- ->. right. exists p, t.
        split; [reflexivity | now apply deriv_correct].
Qed.

(** [search] finds the substrings in the language of the pattern. *)
Lemma search_correct (r : regex) (s : string) :
  search r s = true <-> exists a p b, s = a ++ p ++ b /\ matches r p.
Proof.
  induction s as [| x s IH]; cbn [search].
  - rewrite orb_false_r, match_prefix_correct. split.
    + intros (p & t & Heq & H). exists EmptyString, p, t. auto.
    + intros (a & p & b & Heq & H). symmetry in Heq.
      apply append_eq_nil in Heq. destruct Heq as [-> Heq].
      exists p, b. auto.
  - rewrite orb_true_iff, match_prefix_correct, IH. split.
    + intros [(p & t & Heq & H) | (a & p & b & -> & H)].
      * exists EmptyString, p, t. auto.
      * exists (String x a), p, b. auto.
    + intros (a & p & b & Heq & H). destruct a as [| y a]; simpl in Heq.
      * left. exists p, b. auto.
      * injection Heq as <- ->. right. exists a, p, b. auto.
Qed.

Lemma match_prefix_alt (a b : regex) (s : string) :
  match_prefix (Alt a b) s = match_prefix a s || match_prefix b s.
Proof.
  revert a b; induction s as [| x s IH]; intros a b; simpl.
  - now rewrite !orb_false_r.
  - rewrite IH.
    destruct (nullable a), (nullable b), (match_prefix (deriv x a) s);
      reflexivity.
Qed.

Lemma match_prefix_void (r : regex) (s : string) :
  match_prefix (Cat Void r) s = false.
Proof. induction s as [| x s IH]; simpl; auto. Qed.

Lemma match_prefix_eps (r : regex) (s : string) :
  match_prefix (Cat Eps r) s = match_prefix r s.
Proof.
  destruct s as [| x s]; simpl.
  - reflexivity.
  - now rewrite match_prefix_alt, match_prefix_void.
Qed.

Lemma match_prefix_lit (c : ascii) (r : regex) (s : string) :
  match_prefix (Cat (Lit c) r) s
  = match s with
    | EmptyString => false
    | String x s' =>
        Ascii.eqb (Py.lower_char x) (Py.lower_char c) && match_prefix r s'
    end.
Proof.
  destruct s as [| x s]; simpl; [reflexivity |].
  destruct (Ascii.eqb (Py.lower_char x) (Py.lower_char c)); simpl.
  - apply match_prefix_eps.
  - apply match_prefix_void.
Qed.

Lemma match_prefix_literals (q s : string) :
  match_prefix (literals q) s = String.prefix (Py.lower q) (Py.lower s).
Proof.
  revert s; induction q as [| c q IH]; intros s.
  - destruct s; reflexivity.
  - cbn [literals]. rewrite match_prefix_lit.
    destruct s as [| x s]; [reflexivity |].
    cbn [Py.lower String.prefix]. rewrite IH.
    destruct (ascii_dec (Py.lower_char c) (Py.lower_char x)) as [-> | Hne].
    + now rewrite Ascii.eqb_refl.
    + destruct (Ascii.eqb_spec (Py.lower_char x) (Py.lower_char c));
        [congruence | reflexivity].
Qed.

Lemma search_literals (q s : string) :
  search (literals q) s = contains_ci q s.
Proof.
  unfold contains_ci.
  induction s as [| x s IH]; cbn [search Py.lower is_substring];
    rewrite match_prefix_literals; cbn [Py.lower]; [| rewrite IH];
    reflexivity.
Qed.

Lemma seq_of_literals (q : string) :
  seq_of (rev (map Lit (list_ascii_of_string q))) = literals q.
Proof.
  unfold seq_of. rewrite <- fold_left_rev_right, rev_involutive.
  induction q as [| c q IH]; simpl; [reflexivity | now rewrite IH].
Qed.

Lemma parse_plain (q : string) (items : list regex) (repeated : bool) :
  plain q = true ->
  parse q (mkFrame [] items) [] repeated
  = Compiled (seq_of (rev (map Lit (list_ascii_of_string q)) ++ items)).
Proof.
  revert items repeated; induction q as [| c q IH]; intros items repeated Hq.
  - reflexivity.
  - simpl in Hq. apply andb_true_iff in Hq. destruct Hq as [Hc Hq].
    apply negb_true_iff in Hc. unfold is_special in Hc.
    do 6 (apply orb_false_iff in Hc; destruct Hc as [Hc ?]).
    cbn [parse].
    repeat match goal with H : _ = false |- _ => rewrite H; clear H end.
    unfold push. cbn [branches Re.items]. rewrite IH by assumption.
    cbn [list_ascii_of_string map rev]. now rewrite <- app_assoc.
Qed.

Lemma compile_plain (q : string) :
  plain q = true -> compile q = Compiled (literals q).
Proof.
  intros Hq. unfold compile, empty_frame. rewrite parse_plain by assumption.
  now rewrite app_nil_r, seq_of_literals.
Qed.

End ReFacts.

Lemma select_map (f : Row -> bool) (df : list Row) :
  select df (map f df) = filter f df.
Proof.
  unfold select. induction df as [| row df IH]; simpl; [reflexivity |].
  destruct (f row); simpl; now rewrite IH.
Qed.

Lemma apply_mask_compiled (query : string) (r : Re.regex) (df : list Row) :
  Re.compile query = Re.Compiled r ->
  apply_mask query df
  = Some (Ok (map (fun row => existsb (Re.search r) (cells row)) df)).
Proof.
  intros Hc. induction df as [| row df IH]; simpl; [reflexivity |].
  unfold row_mask. rewrite Hc, IH. reflexivity.
Qed.

Lemma contains_ci_empty (s : string) : contains_ci EmptyString s = true.
Proof.
  unfold contains_ci. destruct (Py.lower s); reflexivity.
Qed.

(** X21: for a plain query, one without a character that is special in a
    pattern, the code is the filter of the specification: it keeps the rows
    with a cell that contains the query, letter case set aside. *)
Lemma search_filter_plain (query : string) (df : list Row) :
  plain query = true ->
  search_filter query df = Some (Ok (filter_spec query df)).
Proof.
  intros Hq. unfold search_filter, filter_spec.
  destruct (Py.truthy_str query) eqn:Htruthy.
  - rewrite (apply_mask_compiled query (literals query))
      by now apply ReFacts.compile_plain.
    rewrite select_map. f_equal. f_equal.
    apply filter_ext. intros row. unfold cells. simpl.
    now rewrite !ReFacts.search_literals.
  - destruct query; [| discriminate].
    f_equal. f_equal. induction df as [| row df IH]; [reflexivity |].
    cbn [filter cells existsb]. rewrite contains_ci_empty. cbn [orb].
    f_equal. exact IH.
Qed.

(** C8 does not hold of the code.  The query "queued(retry)" is a substring
    of the status of [row_retry], yet the code drops the row; the query "("
    is a substring of that status too, yet the code raises; the query "c.m"
    is a substring of no cell of [row_completed], yet the code keeps the
    row.  The empty query and the query "COMPLETED" behave as specified. *)
Theorem search_filter_not_substring :
  filter_spec "queued(retry)" [row_completed; row_retry] = [row_retry]
  /\ search_filter "queued(retry)" [row_completed; row_retry] = Some (Ok [])
  /\ filter_spec "(" [row_completed; row_retry] = [row_retry]
  /\ search_filter "(" [row_completed; row_retry]
     = Some (Raise (ReError))
  /\ filter_spec "c.m" [row_completed; row_retry] = []
  /\ search_filter "c.m" [row_completed; row_retry] = Some (Ok [row_completed])
  /\ search_filter EmptyString [row_completed; row_retry]
     = Some (Ok [row_completed; row_retry])
  /\ search_filter "COMPLETED" [row_completed; row_retry]
     = Some (Ok [row_completed]).
Proof. repeat split; vm_compute; reflexivity. Qed.

(** C10: the query is compiled as a regular expression.  The query "(" is
    not a valid one, and filtering a table that has rows with it raises the
    error of the compilation instead of returning rows.  A query that
    compiles is matched as a pattern: the rows kept are those with a cell in
    which some substring belongs to the language of the pattern. *)
Theorem search_filter_invalid_pattern_raises :
  Re.compile "(" = Re.Error
  /\ (forall row rest, search_filter "(" (row :: rest) = Some (Raise ReError))
  /\ (forall query r df,
        Py.truthy_str query = true ->
        Re.compile query = Re.Compiled r ->
        search_filter query df
        = Some (Ok (filter (fun row => existsb (Re.search r) (cells row)) df)))
  /\ (forall r s,
        Re.search r s = true <->
        exists a p b, s = a ++ p ++ b /\ Re.matches r p).
Proof.
  split; [reflexivity | split; [reflexivity | split]].
  - intros query r df Htruthy Hcompile. unfold search_filter.
    rewrite Htruthy, (apply_mask_compiled query r df Hcompile), select_map.
    reflexivity.
  - apply ReFacts.search_correct.
Qed.

(** The pattern "c.m" keeps the row whose status is "completed", although no
    cell of it contains the text "c.m". *)
Lemma search_filter_invalid_pattern_raises_witness :
  search_filter "c.m" [row_completed; row_retry] = Some (Ok [row_completed])
  /\ existsb (contains_ci "c.m") (cells row_completed) = false.
Proof.
  split; [| reflexivity].
  destruct search_filter_invalid_pattern_raises as (_ & _ & Hregex & _).
  rewrite (Hregex "c.m"
             (Re.Cat (Re.Lit "c") (Re.Cat Re.Dot (Re.Cat (Re.Lit "m") Re.Eps))));
    reflexivity.
Defined.

(** * Further properties *)

(** ** Credential expander *)

Lemma append_cancel_l (p a b : string) : p ++ a = p ++ b -> a = b.
Proof.
  induction p as [| c p IH]; simpl; intros H; [exact H |].
  injection H as H. now apply IH.
Qed.

Lemma append_self_empty (p a : string) : p ++ a = p -> a = EmptyString.
Proof.
  induction p as [| c p IH]; simpl; intros H; [exact H |].
  injection H as H. now apply IH.
Qed.

Lemma to_int_sound (z : Z) :
  NilZero.int_of_string (Py.str_int z) = Some (Z.to_int z).
Proof.
  unfold Py.str_int. apply NilZero.isi.
  - destruct z as [| p | p]; simpl; try discriminate.
    unfold Pos.to_int. intros H. injection H as H.
    now apply (DecimalPos.Unsigned.to_uint_nonnil p).
  - destruct z as [| p | p]; simpl; try discriminate.
    intros H. injection H as H.
    now apply (DecimalPos.Unsigned.to_uint_nonnil p).
Qed.

(** The decimal text determines the integer. *)
Lemma str_int_inj (a b : Z) : Py.str_int a = Py.str_int b -> a = b.
Proof.
  intros H. apply DecimalZ.to_int_inj.
  pose proof (to_int_sound a) as Ha. rewrite H, to_int_sound in Ha.
  now injection Ha.
Qed.

Lemma str_int_nonempty (a : Z) : Py.str_int a <> EmptyString.
Proof.
  intros H. pose proof (to_int_sound a) as Ha. rewrite H in Ha. discriminate.
Qed.

Lemma username_at_inj (base : string) (i j : Z) :
  username_at base i = username_at base j -> i = j.
Proof.
  unfold username_at.
  destruct (Z.eqb_spec i 0) as [-> | Hi], (Z.eqb_spec j 0) as [-> | Hj];
    intros H.
  - reflexivity.
  - symmetry in H. apply append_self_empty in H.
    now apply str_int_nonempty in H.
  - apply append_self_empty in H. now apply str_int_nonempty in H.
  - apply append_cancel_l in H. now apply str_int_inj.
Qed.

Lemma range_nodup (start stop : Z) : NoDup (Py.range start stop).
Proof.
  unfold Py.range. apply Injective_map_NoDup; [| apply seq_NoDup].
  intros a b H. lia.
Qed.

Lemma range_in (start stop i : Z) :
  In i (Py.range start stop) <-> start <= i < stop.
Proof.
  unfold Py.range. rewrite in_map_iff. split.
  - intros (k & <- & Hk). apply in_seq in Hk. lia.
  - intros Hi. exists (Z.to_nat (i - start)). split; [lia |].
    apply in_seq. lia.
Qed.

(** X1: the names [generate_usernames] returns are pairwise distinct, for
    every base name and every range. *)
Theorem generate_usernames_nodup (base : string) (start end_ : Z) :
  NoDup (generate_usernames base start end_).
Proof.
  rewrite generate_usernames_map.
  apply Injective_map_NoDup; [| apply range_nodup].
  intros i j. apply username_at_inj.
Qed.

(** X2: a name is returned exactly when it is the name of an offset of the
    range; the bare base name is returned exactly when the range contains
    0. *)
Theorem generate_usernames_members (base : string) (start end_ : Z) :
  (forall u,
      In u (generate_usernames base start end_) <->
      exists i, start <= i <= end_ /\ u = username_at base i)
  /\ (In base (generate_usernames base start end_) <-> start <= 0 <= end_).
Proof.
  assert (Hmem : forall u,
             In u (generate_usernames base start end_) <->
             exists i, start <= i <= end_ /\ u = username_at base i).
  { intros u. rewrite generate_usernames_map, in_map_iff. split.
    - intros (i & <- & Hi). apply range_in in Hi. exists i. split; [lia | auto].
    - intros (i & Hi & ->). exists i. split; [reflexivity |].
      apply range_in. lia. }
  split; [exact Hmem |].
  rewrite Hmem. split.
  - intros (i & Hi & Hu).
    change base with (username_at base 0) in Hu at 1.
    apply username_at_inj in Hu. subst i. exact Hi.
  - intros H0. exists 0. split; [exact H0 | reflexivity].
Qed.

(** ** Auth client *)

Lemma lstrip_first (s : string) (c : ascii) :
  first_char (Py.lstrip s) = Some c -> Py.isspace c = false.
Proof.
  induction s as [| x s IH]; simpl; [discriminate |].
  destruct (Py.isspace x) eqn:Hx; [exact IH |].
  simpl. intros H. now injection H as <-.
Qed.

Lemma rstrip_last (s : string) (c : ascii) :
  last_char (Py.rstrip s) = Some c -> Py.isspace c = false.
Proof.
  induction s as [| x s IH]; simpl; [discriminate |].
  destruct (Py.rstrip s) as [| a r] eqn:Hr.
  - destruct (Py.isspace x) eqn:Hx; simpl; [discriminate |].
    intros H. now injection H as <-.
  - exact IH.
Qed.

Lemma rstrip_first (s : string) (c : ascii) :
  first_char s = Some c -> Py.isspace c = false ->
  first_char (Py.rstrip s) = Some c.
Proof.
  destruct s as [| x s]; simpl; [discriminate |].
  intros H Hc. injection H as ->.
  destruct (Py.rstrip s); [now rewrite Hc | reflexivity].
Qed.

Lemma rstrip_idempotent (s : string) : Py.rstrip (Py.rstrip s) = Py.rstrip s.
Proof.
  induction s as [| x s IH]; simpl; [reflexivity |].
  destruct (Py.rstrip s) as [| a r] eqn:Hr.
  - destruct (Py.isspace x) eqn:Hx; simpl; [reflexivity | now rewrite Hx].
  - change (Py.rstrip (String x (String a r)))
      with (match Py.rstrip (String a r) with
            | EmptyString =>
                if Py.isspace x then EmptyString else String x EmptyString
            | r' => String x r'
            end).
    now rewrite IH.
Qed.

Lemma lstrip_fixed (s : string) :
  (forall c, first_char s = Some c -> Py.isspace c = false) ->
  Py.lstrip s = s.
Proof.
  destruct s as [| x s]; simpl; [reflexivity |].
  intros H. now rewrite (H x eq_refl).
Qed.

(** What [strip] returns has no whitespace at either end, and stripping it
    again changes nothing. *)
Lemma strip_clean (s : string) :
  (forall c, first_char (Py.strip s) = Some c -> Py.isspace c = false)
  /\ (forall c, last_char (Py.strip s) = Some c -> Py.isspace c = false)
  /\ Py.strip (Py.strip s) = Py.strip s.
Proof.
  assert (Hfirst : forall c, first_char (Py.strip s) = Some c ->
                             Py.isspace c = false).
  { intros c. unfold Py.strip.
    destruct (first_char (Py.lstrip s)) as [x |] eqn:Hx.
    - pose proof (lstrip_first s x Hx) as Hsp.
      rewrite (rstrip_first _ _ Hx Hsp). intros H. now injection H as <-.
    - destruct (Py.lstrip s); [discriminate | discriminate]. }
  split; [exact Hfirst | split].
  - intros c. apply rstrip_last.
  - unfold Py.strip at 1. rewrite (lstrip_fixed _ Hfirst).
    unfold Py.strip. apply rstrip_idempotent.
Qed.

(** X3: a token returned by [get_auth_token] is never empty, has no
    whitespace at either end and comes without an error; a missing token
    always comes with an error. *)
Theorem get_auth_token_clean
    (env : History -> Request -> Outcome)
    (username password gateway_url : string) (h : History) :
  let run := fst (get_auth_token env username password gateway_url h) in
  (forall token,
      fst run = Some token ->
      token <> EmptyString
      /\ (forall c, first_char token = Some c -> Py.isspace c = false)
      /\ (forall c, last_char token = Some c -> Py.isspace c = false)
      /\ Py.strip token = token
      /\ snd run = None)
  /\ (fst run = None -> exists error, snd run = Some error).
Proof.
  cbv zeta. unfold get_auth_token, send.
  destruct (env h (auth_request username password gateway_url))
    as [response | msg]; simpl.
  - destruct (status_code response =? 201).
    + destruct (Py.truthy_str (Py.strip (text response))) eqn:Htruthy; simpl.
      * split; [| discriminate].
        intros token H. injection H as <-.
        destruct (strip_clean (text response)) as (Hf & Hl & Hid).
        repeat split; auto.
        intros Hempty. rewrite Hempty in Htruthy. discriminate.
      * split; [discriminate | eauto].
    + simpl. split; [discriminate | eauto].
  - split; [discriminate | eauto].
Qed.

(** A 201 answer whose body is a token between spaces and a newline. *)
Lemma get_auth_token_clean_witness :
  first_char "tok0" = Some "t"%char
  /\ Py.isspace "t" = false
  /\ Py.strip "tok0" = "tok0".
Proof.
  destruct (get_auth_token_clean
              (scripted [answer 201 "Created" "  tok0 " (Decoded JNull)])
              "easm" "secret" "gateway" []) as (Htoken & _).
  destruct (Htoken "tok0" eq_refl) as (_ & Hfirst & _ & Hstrip & _).
  split; [reflexivity | split; [now apply Hfirst | exact Hstrip]].
Defined.

(** ** The connect action *)

Lemma dict_keys_set (d : TokenDict) (k v : string) :
  Dict.keys (Dict.set d k v)
  = if existsb (String.eqb k) (Dict.keys d) then Dict.keys d
    else (Dict.keys d ++ [k])%list.
Proof.
  unfold Dict.keys. induction d as [| [k' v'] d IH]; simpl; [reflexivity |].
  rewrite (String.eqb_sym k k').
  destruct (String.eqb_spec k' k) as [-> | Hne]; simpl; [reflexivity |].
  rewrite IH. now destruct (existsb (String.eqb k) (map fst d)).
Qed.

Lemma existsb_eqb_in (k : string) (l : list string) :
  existsb (String.eqb k) l = true <-> In k l.
Proof.
  rewrite existsb_exists. split.
  - intros (x & Hx & Heq). apply String.eqb_eq in Heq. now subst.
  - intros H. exists k. split; [exact H | apply String.eqb_refl].
Qed.

Lemma dict_keys_set_nodup (d : TokenDict) (k v : string) :
  NoDup (Dict.keys d) -> NoDup (Dict.keys (Dict.set d k v)).
Proof.
  intros Hnd. rewrite dict_keys_set.
  destruct (existsb (String.eqb k) (Dict.keys d)) eqn:Hex; [exact Hnd |].
  apply NoDup_app; [exact Hnd | repeat constructor; intros [] | idtac].
  intros x Hx [<- | []].
  apply existsb_eqb_in in Hx. congruence.
Qed.

Lemma dict_keys_set_in (d : TokenDict) (k v u : string) :
  In u (Dict.keys (Dict.set d k v)) <-> In u (Dict.keys d) \/ u = k.
Proof.
  rewrite dict_keys_set.
  destruct (existsb (String.eqb k) (Dict.keys d)) eqn:Hex.
  - apply existsb_eqb_in in Hex. split; [auto | intros [H | ->]; auto].
  - rewrite in_app_iff. simpl. intuition (subst; auto).
Qed.

Lemma dict_get_in_keys (d : TokenDict) (k : string) :
  Dict.get d k <> None <-> In k (Dict.keys d).
Proof.
  unfold Dict.keys. induction d as [| [k' v'] d IH]; simpl.
  - split; [congruence | intros []].
  - destruct (String.eqb_spec k' k) as [-> | Hne].
    + split; [auto | discriminate].
    + rewrite IH. split; [auto | intros [H | H]; [congruence | exact H]].
Qed.

Section ConnectRun.

Variable env : History -> Request -> Outcome.
Variables password gateway_url : string.

(** A token [get_auth_token] returns passes the test [if token:]. *)
Lemma auth_token_truthy (u : string) (h : History) (t : string) :
  fst (fst (get_auth_token env u password gateway_url h)) = Some t ->
  Py.truthy_str t = true.
Proof.
  unfold get_auth_token, send.
  destruct (env h (auth_request u password gateway_url)) as [response | msg];
    simpl; [| discriminate].
  destruct (status_code response =? 201); [| discriminate].
  destruct (Py.truthy_str (Py.strip (text response))) eqn:Htruthy; simpl;
    [| discriminate].
  intros H. now injection H as <-.
Qed.

(** The loop adds one event per username to the log, keeps the keys of the
    dictionary distinct, and adds the key [u] exactly when it logs
    [Authenticated u]. *)
Lemma authenticate_loop_log (us : list string) (tokens0 : TokenDict)
    (log0 : list ui_event) (h : History) :
  NoDup (Dict.keys tokens0) ->
  exists events,
    snd (fst (authenticate_loop env us password gateway_url tokens0 log0 h))
    = (log0 ++ events)%list
    /\ map event_username events = us
    /\ NoDup (Dict.keys
                (fst (fst (authenticate_loop env us password gateway_url
                             tokens0 log0 h))))
    /\ forall u,
         In u (Dict.keys
                 (fst (fst (authenticate_loop env us password gateway_url
                              tokens0 log0 h))))
         <-> In u (Dict.keys tokens0) \/ In (Authenticated u) events.
Proof.
  revert tokens0 log0 h; induction us as [| x us IH]; intros tokens0 log0 h Hnd.
  - exists []. simpl. rewrite app_nil_r.
    repeat split; auto. intros [H | []]; exact H.
  - simpl.
    destruct (get_auth_token env x password gateway_url h)
      as [[token error] h1].
    assert (Hfail :
      exists events,
        snd (fst (authenticate_loop env us password gateway_url tokens0
                    (log0 ++ [AuthFailed x error]) h1))
        = (log0 ++ events)%list
        /\ map event_username events = x :: us
        /\ NoDup (Dict.keys
                    (fst (fst (authenticate_loop env us password gateway_url
                                 tokens0 (log0 ++ [AuthFailed x error]) h1))))
        /\ forall u,
             In u (Dict.keys
                     (fst (fst (authenticate_loop env us password gateway_url
                                  tokens0 (log0 ++ [AuthFailed x error]) h1))))
             <-> In u (Dict.keys tokens0) \/ In (Authenticated u) events).
    { destruct (IH tokens0 (log0 ++ [AuthFailed x error])%list h1 Hnd)
        as (events & Hlog & Hnames & Hnd' & Hkeys).
      exists (AuthFailed x error :: events).
      split; [now rewrite Hlog, <- app_assoc | split; [simpl; now f_equal |]].
      split; [exact Hnd' |].
      intros u. rewrite Hkeys. simpl. split; intros [H | H]; auto.
      destruct H as [H | H]; [discriminate | auto]. }
    destruct token as [t |]; [destruct (Py.truthy_str t) |]; try exact Hfail.
    destruct (IH (Dict.set tokens0 x t) (log0 ++ [Authenticated x])%list h1
                (dict_keys_set_nodup _ _ _ Hnd))
      as (events & Hlog & Hnames & Hnd' & Hkeys).
    exists (Authenticated x :: events).
    split; [now rewrite Hlog, <- app_assoc | split; [simpl; now f_equal |]].
    split; [exact Hnd' |].
    intros u. rewrite Hkeys, dict_keys_set_in. simpl.
    split.
    + intros [[H | ->] | H]; auto.
    + intros [H | [H | H]]; auto. injection H as ->. auto.
Qed.

(** An identity that authenticates at its turn and is not tried again has
    its token in the final dictionary. *)
Lemma authenticate_loop_complete (pre post : list string) (u t : string)
    (h : History) :
  ~ In u post ->
  fst (fst (get_auth_token env u password gateway_url
              (h ++ map (fun n => auth_request n password gateway_url) pre)%list))
  = Some t ->
  Dict.get
    (fst (fst (authenticate_loop env (pre ++ u :: post) password gateway_url
                 [] [] h))) u
  = Some t.
Proof.
  intros Hpost Hauth.
  rewrite authenticate_loop_app.
  pose proof (authenticate_loop_history env password gateway_url pre [] [] h)
    as Hh.
  destruct (authenticate_loop env pre password gateway_url [] [] h)
    as [[tokens1 log1] h1].
  simpl in Hh. subst h1. simpl.
  pose proof (auth_token_truthy _ _ _ Hauth) as Htruthy.
  destruct (get_auth_token env u password gateway_url
              (h ++ map (fun n => auth_request n password gateway_url) pre)%list)
    as [[token error] h2].
  simpl in Hauth. subst token. rewrite Htruthy.
  rewrite authenticate_loop_preserves by assumption.
  now rewrite dict_get_set, String.eqb_refl.
Qed.

End ConnectRun.

Lemma nodup_split_unique (A : Type) (a a' b b' : list A) (x : A) :
  NoDup (a ++ x :: b) -> (a ++ x :: b = a' ++ x :: b')%list -> a = a'.
Proof.
  revert a'; induction a as [| z a IH]; intros a' Hnd Heq.
  - destruct a' as [| y a']; [reflexivity |].
    simpl in Heq. injection Heq as <- ->.
    inversion Hnd as [| ? ? Hnotin _]; subst.
    exfalso. apply Hnotin. apply in_or_app. right. now left.
  - destruct a' as [| y a']; simpl in Heq.
    + injection Heq as -> _. simpl in Hnd.
      inversion Hnd as [| ? ? Hnotin _]; subst.
      exfalso. apply Hnotin. apply in_or_app. right. now left.
    + injection Heq as <- Heq. f_equal.
      apply IH; [now inversion Hnd | exact Heq].
Qed.

(** X4: the connect action sends no request when a required field is empty
    or the range is reversed; otherwise it sends exactly one authentication
    request per generated username, in the order of the usernames, and logs
    one event per username in the same order. *)
Theorem connect_requests
    (env : History -> Request -> Outcome)
    (gateway_url base password : string) (start end_ : Z) (h : History) :
  (Py.all_str [gateway_url; base; password] = false \/ end_ < start ->
   exists message,
     connect env gateway_url base password start end_ h = (Stopped message, h))
  /\ (Py.all_str [gateway_url; base; password] = true -> start <= end_ ->
      exists tokens log,
        connect env gateway_url base password start end_ h
        = (Connected tokens log,
           (h ++ map (fun u => auth_request u password gateway_url)
                     (generate_usernames base start end_))%list)
        /\ map event_username log = generate_usernames base start end_
        /\ List.length log = Z.to_nat (end_ - start + 1)).
Proof.
  unfold connect. split.
  - intros [Hall | Hlt].
    + rewrite Hall. simpl. eauto.
    + destruct (Py.all_str [gateway_url; base; password]); simpl; [| eauto].
      destruct (Z.ltb_spec end_ start); [eauto | lia].
  - intros Hall Hle. rewrite Hall. simpl.
    destruct (Z.ltb_spec end_ start); [lia |].
    pose proof (authenticate_loop_history env password gateway_url
                  (generate_usernames base start end_) [] [] h) as Hh.
    destruct (authenticate_loop_log env password gateway_url
                (generate_usernames base start end_) [] [] h
                (NoDup_nil _)) as (events & Hlog & Hnames & _).
    destruct (authenticate_loop env (generate_usernames base start end_)
                password gateway_url [] [] h) as [[tokens log] h'].
    simpl in Hh, Hlog. subst h' log.
    exists tokens, events. split; [reflexivity | split; [exact Hnames |]].
    rewrite <- (length_map event_username), Hnames, generate_usernames_map.
    rewrite length_map, range_length. f_equal. lia.
Qed.

(** The range 0..2 against a gateway that is down. *)
Lemma connect_requests_witness :
  exists tokens log,
    connect env_down "gateway" "easm" "secret" 0 2 []
    = (Connected tokens log,
       map (fun u => auth_request u "secret" "gateway")
           ["easm"; "easm1"; "easm2"])
    /\ List.length log = 3%nat.
Proof.
  destruct (connect_requests env_down "gateway" "easm" "secret" 0 2 [])
    as (_ & Hrun).
  destruct (Hrun eq_refl ltac:(lia)) as (tokens & log & Hconnect & _ & Hlen).
  exists tokens, log. split; [exact Hconnect | exact Hlen].
Defined.

(** X5: the token dictionary the connect action stores has distinct keys;
    its keys are exactly the usernames logged as authenticated, and each of
    them is one of the generated usernames. *)
Theorem connect_token_keys
    (env : History -> Request -> Outcome)
    (gateway_url base password : string) (start end_ : Z) (h h' : History)
    (tokens : TokenDict) (log : list ui_event) :
  connect env gateway_url base password start end_ h
  = (Connected tokens log, h') ->
  NoDup (Dict.keys tokens)
  /\ (forall u, In u (Dict.keys tokens) <-> In (Authenticated u) log)
  /\ (forall u, In u (Dict.keys tokens) ->
        In u (generate_usernames base start end_))
  /\ (List.length tokens <= Z.to_nat (end_ - start + 1))%nat.
Proof.
  unfold connect.
  destruct (Py.all_str [gateway_url; base; password]); simpl; [| discriminate].
  destruct (Z.ltb_spec end_ start) as [Hlt | Hle]; [discriminate |].
  destruct (authenticate_loop_log env password gateway_url
              (generate_usernames base start end_) [] [] h
              (NoDup_nil _)) as (events & Hlog & Hnames & Hnd & Hkeys).
  destruct (authenticate_loop env (generate_usernames base start end_)
              password gateway_url [] [] h) as [[tokens' log'] h''].
  simpl in Hlog, Hnd, Hkeys. intros H. injection H as -> -> ->.
  subst log.
  assert (Hsub : forall u, In u (Dict.keys tokens) ->
                   In u (generate_usernames base start end_)).
  { intros u Hu. apply Hkeys in Hu. destruct Hu as [[] | Hu].
    rewrite <- Hnames. apply (in_map event_username) in Hu. exact Hu. }
  split; [exact Hnd | split; [| split; [exact Hsub |]]].
  - intros u. rewrite Hkeys. simpl. tauto.
  - replace (List.length tokens) with (List.length (Dict.keys tokens))
      by apply length_map.
    replace (Z.to_nat (end_ - start + 1))
      with (List.length (generate_usernames base start end_)).
    + apply NoDup_incl_length; [exact Hnd | exact Hsub].
    + rewrite generate_usernames_map, length_map, range_length. f_equal. lia.
Qed.

(** The run of [env_auth_500] over the range 0..2. *)
Lemma connect_token_keys_witness :
  NoDup (Dict.keys [("easm", "tok0"); ("easm2", "tok2")])
  /\ ~ In "easm1" (Dict.keys [("easm", "tok0"); ("easm2", "tok2")]).
Proof.
  edestruct connect_token_keys
    with (env := env_auth_500) (gateway_url := "gateway") (base := "easm")
         (password := "secret") (start := 0) (end_ := 2)
         (h := @nil Request)
    as (Hnd & Hkeys & _).
  - vm_compute. reflexivity.
  - split; [exact Hnd |].
    intros Hin. apply Hkeys in Hin. simpl in Hin.
    repeat destruct Hin as [Hin | Hin]; try discriminate Hin. exact Hin.
Defined.

(** X6: after the connect action, the dictionary maps a generated username
    to a token exactly when [get_auth_token] returned that token for the
    username at its turn, that is after the requests for the usernames
    before it. *)
Theorem connect_token_lookup
    (env : History -> Request -> Outcome)
    (gateway_url base password : string) (start end_ : Z) (h h' : History)
    (tokens : TokenDict) (log : list ui_event)
    (pre post : list string) (u t : string) :
  connect env gateway_url base password start end_ h
  = (Connected tokens log, h') ->
  generate_usernames base start end_ = (pre ++ u :: post)%list ->
  (Dict.get tokens u = Some t <->
   fst (fst (get_auth_token env u password gateway_url
               (h ++ map (fun n => auth_request n password gateway_url)
                         pre)%list))
   = Some t).
Proof.
  unfold connect.
  destruct (Py.all_str [gateway_url; base; password]); simpl; [| discriminate].
  destruct (Z.ltb_spec end_ start) as [Hlt | Hle]; [discriminate |].
  intros Hrun Hsplit.
  assert (Hnd : NoDup (generate_usernames base start end_)).
  { rewrite generate_usernames_map.
    apply Injective_map_NoDup; [| apply range_nodup].
    intros i j. apply username_at_inj. }
  rewrite Hsplit in Hnd, Hrun.
  assert (Htokens :
    tokens = fst (fst (authenticate_loop env (pre ++ u :: post) password
                         gateway_url [] [] h))).
  { destruct (authenticate_loop env (pre ++ u :: post) password gateway_url
                [] [] h) as [[tokens' log'] h''].
    now injection Hrun as -> _ _. }
  clear Hrun. subst tokens. split.
  - intros Hget. apply authenticate_loop_sound in Hget.
    destruct Hget as [Hget | (pre' & post' & Heq & Hauth)]; [discriminate |].
    now rewrite (nodup_split_unique _ _ _ _ _ _ Hnd Heq).
  - apply authenticate_loop_complete.
    apply NoDup_remove_2 in Hnd. intros Hin. apply Hnd.
    apply in_or_app. now right.
Qed.

(** In the run of [env_auth_500] the third username gets the third
    answer. *)
Lemma connect_token_lookup_witness :
  Dict.get [("easm", "tok0"); ("easm2", "tok2")] "easm2" = Some "tok2".
Proof.
  eapply connect_token_lookup
    with (env := env_auth_500) (gateway_url := "gateway") (base := "easm")
         (password := "secret") (start := 0) (end_ := 2)
         (h := @nil Request) (pre := ["easm"; "easm1"]) (post := @nil string).
  - vm_compute. reflexivity.
  - reflexivity.
  - reflexivity.
Defined.

(** ** Profile client *)

Lemma raise_for_status_none (response : Response) :
  raise_for_status response = None <->
  ~ (400 <= status_code response < 600).
Proof.
  unfold raise_for_status.
  destruct (Z.leb_spec 400 (status_code response));
    destruct (Z.ltb_spec (status_code response) 500);
    destruct (Z.leb_spec 500 (status_code response));
    destruct (Z.ltb_spec (status_code response) 600); simpl;
    split; intros Hres; try discriminate; try reflexivity; lia.
Qed.

(** X7: [delete_profile] reports success exactly when the gateway answers
    with a status outside 400..599, so an answer with a 1xx or 3xx status
    counts as a successful delete; success comes without an error text,
    failure with one, and one request is sent either way. *)
Theorem delete_profile_outcome
    (env : History -> Request -> Outcome)
    (auth_token gateway_url profile_name : string) (h : History) :
  let request := delete_request auth_token gateway_url profile_name in
  let run := delete_profile env auth_token gateway_url profile_name h in
  (fst (fst run) = true <->
   exists response,
     env h request = Responded response
     /\ ~ (400 <= status_code response < 600))
  /\ (fst (fst run) = true <-> snd (fst run) = None)
  /\ snd run = (h ++ [request])%list.
Proof.
  cbv zeta. unfold delete_profile, send.
  destruct (env h (delete_request auth_token gateway_url profile_name))
    as [response | msg].
  - pose proof (raise_for_status_none response) as Hnone.
    destruct (raise_for_status response) as [e |]; simpl.
    + split; [| split; [split; discriminate | reflexivity]].
      split; [discriminate |].
      intros (r & Hr & Hst). injection Hr as <-.
      apply Hnone in Hst. discriminate.
    + split; [| split; [tauto | reflexivity]].
      split; [| reflexivity].
      intros _. exists response. split; [reflexivity | now apply Hnone].
  - simpl. split; [| split; [split; discriminate | reflexivity]].
    split; [discriminate | intros (r & Hr & _); discriminate].
Qed.

(** A 302 answer to a delete request is taken for a success. *)
Lemma delete_profile_outcome_witness :
  fst (fst (delete_profile
              (scripted [answer 302 "Found" EmptyString
                           (JSONDecodeError "Expecting value")])
              "tok0" "gateway" "alpha" []))
  = true.
Proof.
  destruct (delete_profile_outcome
              (scripted [answer 302 "Found" EmptyString
                           (JSONDecodeError "Expecting value")])
              "tok0" "gateway" "alpha" []) as (Hok & _).
  apply Hok. eexists. split; [reflexivity | simpl; lia].
Defined.

(** X8: [get_profile_status] returns no error exactly when the gateway
    answers with a status outside 400..599 and a body that decodes as JSON,
    and then returns the decoded value; with an error the profiles are
    [None]; one request is sent either way. *)
Theorem get_profile_status_outcome
    (env : History -> Request -> Outcome)
    (auth_token gateway_url : string) (h : History) :
  let request := status_request auth_token gateway_url in
  let run := get_profile_status env auth_token gateway_url h in
  (forall v,
      fst run = (v, None) <->
      exists response,
        env h request = Responded response
        /\ ~ (400 <= status_code response < 600)
        /\ body response = Decoded v)
  /\ (snd (fst run) <> None -> fst (fst run) = JNull)
  /\ snd run = (h ++ [request])%list.
Proof.
  cbv zeta. unfold get_profile_status, send.
  destruct (env h (status_request auth_token gateway_url))
    as [response | msg].
  - pose proof (raise_for_status_none response) as Hnone.
    destruct (raise_for_status response) as [e |]; simpl.
    + split; [| split; reflexivity].
      intros v. split; [discriminate |].
      intros (r & Hr & Hst & _). injection Hr as <-.
      apply Hnone in Hst. discriminate.
    + destruct (body response) as [v0 | e] eqn:Hbody; simpl.
      * split; [| split; [congruence | reflexivity]].
        intros v. split.
        -- intros H. injection H as <-. exists response.
           split; [reflexivity | split; [now apply Hnone | exact Hbody]].
        -- intros (r & Hr & _ & Hb). injection Hr as <-.
           rewrite Hbody in Hb. now injection Hb as <-.
      * split; [| split; reflexivity].
        intros v. split; [discriminate |].
        intros (r & Hr & _ & Hb). injection Hr as <-.
        rewrite Hbody in Hb. discriminate.
  - simpl. split; [| split; reflexivity].
    intros v. split; [discriminate | intros (r & Hr & _); discriminate].
Qed.

(** The first answer of [env_fetch] is a list of one raw profile. *)
Lemma get_profile_status_outcome_witness :
  fst (get_profile_status env_fetch "tok0" "gateway" [])
  = (JArr [raw_alpha], None).
Proof.
  destruct (get_profile_status_outcome env_fetch "tok0" "gateway" [])
    as (Hok & _).
  apply Hok. eexists. split; [reflexivity | split; [simpl; lia | reflexivity]].
Defined.

(** ** Aggregator *)

Lemma append_profiles_objects (u : string) (items : list json)
    (acc rows : list ProfileRecord) :
  append_profiles u items acc = Ok rows ->
  Forall (fun p => exists members, p = JObj members) items.
Proof.
  revert acc; induction items as [| p items IH]; intros acc; simpl.
  - constructor.
  - destruct p as [| | | | | members]; try discriminate.
    simpl. intros H. constructor; [eauto | now apply IH in H].
Qed.

Lemma append_profiles_of_objects (u : string) (items : list json)
    (acc : list ProfileRecord) :
  Forall (fun p => exists members, p = JObj members) items ->
  exists rows,
    append_profiles u items acc = Ok (acc ++ rows)%list
    /\ List.length rows = List.length items.
Proof.
  intros Hall. revert acc.
  induction Hall as [| p items (members & ->) _ IH]; intros acc.
  - exists []. simpl. now rewrite app_nil_r.
  - simpl.
    destruct (IH (acc ++
                  [mkProfileRecord u
                     (Json.get members "profileName" (JStr "N/A"))
                     (Json.get members "status" (JStr "Unknown"))
                     (Json.get members "lastConfiguredOn" (JStr "N/A"))
                     (Json.get members "nextScheduledSyncOn" (JStr "N/A"))
                     (Json.get members "lastDiscoveryCompletedOn"
                        (JStr "N/A"))])%list)
      as (rows & Hrows & Hlen).
    eexists (_ :: rows). rewrite Hrows, <- app_assoc.
    split; [reflexivity | simpl; now rewrite Hlen].
Qed.

(** The loop body returns rows exactly for a falsy value and for a non-empty
    list of JSON objects. *)
Lemma append_identity_ok (u : string) (profiles : json)
    (acc : list ProfileRecord) :
  (exists rows, append_identity u profiles acc = Ok rows) <->
  Json.truthy profiles = false \/ is_profile_list profiles.
Proof.
  unfold append_identity. split.
  - intros (rows & H).
    destruct (Json.truthy profiles) eqn:Htruthy; [right | now left].
    destruct (iterate profiles) as [items | e] eqn:Hiter; [| discriminate].
    apply append_profiles_objects in H.
    destruct profiles as [| | | s | l | m]; try discriminate;
      simpl in Hiter; injection Hiter as <-.
    + destruct s as [| c s]; [discriminate |].
      simpl in H. inversion H as [| ? ? (members & Hm) _]. discriminate.
    + exists l. split; [reflexivity | split; [| exact H]].
      intros ->. discriminate.
    + destruct m as [| [k v] m]; [discriminate |].
      simpl in H. inversion H as [| ? ? (members & Hm) _]. discriminate.
  - intros [Hfalsy | (items & -> & Hne & Hall)].
    + rewrite Hfalsy. eauto.
    + destruct items as [| p items]; [congruence |].
      cbn [Json.truthy iterate].
      destruct (append_profiles_of_objects u (p :: items) acc Hall)
        as (rows & Hrows & _).
      eauto.
Qed.

(** X9: the rows of one identity are produced exactly when the fetched
    value is falsy (the sentinel row) or a non-empty list of JSON objects;
    every other value, such as a JSON object, a number, a text or a list
    with an element that is not an object, makes the aggregation raise. *)
Theorem append_identity_succeeds (u : string) (profiles : json)
    (acc : list ProfileRecord) :
  ((exists rows, append_identity u profiles acc = Ok rows) <->
   Json.truthy profiles = false \/ is_profile_list profiles)
  /\ ((exists e, append_identity u profiles acc = Raise e) <->
      Json.truthy profiles = true /\ ~ is_profile_list profiles).
Proof.
  pose proof (append_identity_ok u profiles acc) as Hok.
  split; [exact Hok |].
  split.
  - intros (e & He). split.
    + destruct (Json.truthy profiles) eqn:Htruthy; [reflexivity |].
      unfold append_identity in He. rewrite Htruthy in He. discriminate.
    + intros Hlist.
      destruct (proj2 Hok (or_intror Hlist)) as (rows & Hrows). congruence.
  - intros [Htruthy Hnot].
    destruct (append_identity u profiles acc) as [rows | e] eqn:Hrun;
      [| eauto].
    destruct (proj1 Hok (ex_intro _ rows eq_refl)) as [H | H];
      [congruence | contradiction].
Qed.

(** X10: when the fetch of an identity returns a truthy value that is not a
    non-empty list of JSON objects, the aggregation raises at that identity:
    the rows gathered so far are lost and no request is sent for the
    identities after it. *)
Theorem aggregate_aborts
    (env : History -> Request -> Outcome) (gateway_url : string)
    (pre post : TokenDict) (u token : string)
    (rows_pre : list ProfileRecord) (h h1 : History) :
  aggregate env gateway_url pre h = (Ok rows_pre, h1) ->
  Json.truthy (fst (fst (get_profile_status env token gateway_url h1)))
  = true ->
  ~ is_profile_list (fst (fst (get_profile_status env token gateway_url h1))) ->
  exists e,
    aggregate env gateway_url (pre ++ (u, token) :: post)%list h
    = (Raise e, (h1 ++ [status_request token gateway_url])%list).
Proof.
  intros Hpre Htruthy Hnot.
  rewrite aggregate_app, Hpre, aggregate_cons, get_profile_status_history.
  destruct (append_identity u
              (fst (fst (get_profile_status env token gateway_url h1))) [])
    as [rows | e] eqn:Hrun.
  - exfalso.
    destruct (proj1 (append_identity_ok u _ []) (ex_intro _ rows Hrun))
      as [H | H]; [congruence | contradiction].
  - exists e. reflexivity.
Qed.

(** A JSON object in place of the list of profiles makes the page raise. *)
Lemma aggregate_aborts_witness :
  exists e,
    aggregate env_maintenance "gateway" sample_tokens []
    = (Raise e, [status_request "tok0" "gateway"]).
Proof.
  edestruct aggregate_aborts
    with (env := env_maintenance) (gateway_url := "gateway")
         (pre := @nil (string * string)) (u := "easm") (token := "tok0")
         (post := [("easm1", "tok1"); ("easm2", "tok2")])
         (h := @nil Request)
    as (e & He).
  - reflexivity.
  - reflexivity.
  - intros (items & Hitems & _). discriminate Hitems.
  - exists e. exact He.
Defined.

(** X11: a run of the aggregation sends status requests for the first
    identities of the dictionary only, one each, in the order of the
    dictionary and with the token of the identity; when it returns a table
    it has sent one for every identity. *)
Theorem aggregate_requests
    (env : History -> Request -> Outcome) (gateway_url : string)
    (tokens : TokenDict) (h : History) :
  exists n,
    (n <= List.length tokens)%nat
    /\ snd (aggregate env gateway_url tokens h)
       = (h ++ map (fun kv => status_request (snd kv) gateway_url)
                   (firstn n tokens))%list
    /\ (forall rows,
          fst (aggregate env gateway_url tokens h) = Ok rows ->
          n = List.length tokens).
Proof.
  revert h; induction tokens as [| [u token] tokens IH]; intros h.
  - exists 0%nat. unfold aggregate. simpl. rewrite app_nil_r. auto.
  - rewrite aggregate_cons, get_profile_status_history.
    destruct (append_identity u
                (fst (fst (get_profile_status env token gateway_url h))) [])
      as [block | e].
    + destruct (IH (h ++ [status_request token gateway_url])%list)
        as (n & Hn & Hh & Hall).
      exists (S n).
      destruct (aggregate env gateway_url tokens
                  (h ++ [status_request token gateway_url])%list)
        as [[rows | e] h2]; simpl in *; subst h2;
        (split; [lia | split; [now rewrite <- app_assoc |]]).
      * intros rows' _. f_equal. now apply (Hall rows).
      * discriminate.
    + exists 1%nat. simpl. split; [lia | split; [reflexivity | discriminate]].
Qed.

(** X12: the table the aggregation returns is made of one non-empty block
    of rows per identity, the blocks in the order of the dictionary and
    every row of a block carrying the identity of the block. *)
Theorem aggregate_rows_grouped
    (env : History -> Request -> Outcome) (gateway_url : string)
    (tokens : TokenDict) (h h' : History) (rows : list ProfileRecord) :
  aggregate env gateway_url tokens h = (Ok rows, h') ->
  exists blocks,
    rows = List.concat blocks
    /\ Forall2
         (fun kv block =>
            block <> [] /\ Forall (fun r => username r = fst kv) block)
         tokens blocks.
Proof.
  revert h h' rows; induction tokens as [| [u token] tokens IH];
    intros h h' rows Hagg.
  - injection Hagg as <- _. exists []. split; [reflexivity | constructor].
  - rewrite aggregate_cons in Hagg.
    destruct (append_identity u
                (fst (fst (get_profile_status env token gateway_url h))) [])
      as [block | e] eqn:Hblock; [| discriminate].
    apply append_identity_rows in Hblock.
    destruct (aggregate env gateway_url tokens
                (snd (get_profile_status env token gateway_url h)))
      as [[rows' | e] h2] eqn:Hrest; [| discriminate].
    simpl in Hagg. injection Hagg as <- _.
    destruct (IH _ _ _ Hrest) as (blocks & -> & Hall).
    exists (block :: blocks). split; [reflexivity |].
    constructor; [exact Hblock | exact Hall].
Qed.

(** The run of [env_fetch] over the three sample identities. *)
Lemma aggregate_rows_grouped_witness :
  exists blocks,
    List.length blocks = 3%nat
    /\ [mkProfileRecord "easm" (JStr "alpha") (JStr "completed") (JStr "N/A")
          (JStr "2025-01-02") (JStr "2025-01-01");
        sentinel_row "easm1"; sentinel_row "easm2"]
       = List.concat blocks.
Proof.
  edestruct aggregate_rows_grouped
    with (env := env_fetch) (gateway_url := "gateway")
         (tokens := sample_tokens) (h := @nil Request)
    as (blocks & Hrows & Hall).
  - vm_compute. reflexivity.
  - exists blocks. split; [| exact Hrows].
    apply Forall2_length in Hall. now rewrite <- Hall.
Defined.

(** ** Percent-encoding of profile names *)

Lemma quote_char_safe (c : ascii) :
  all_chars url_safe (Quote.quote_char c) = true.
Proof. destruct c as [[] [] [] [] [] [] [] []]; reflexivity. Qed.

Lemma all_chars_append (p : ascii -> bool) (a b : string) :
  all_chars p (a ++ b) = all_chars p a && all_chars p b.
Proof.
  induction a as [| c a IH]; simpl; [reflexivity |].
  now rewrite IH, andb_assoc.
Qed.

Lemma decode_quote_char (c : ascii) (rest : string) :
  decode_char (Quote.quote_char c ++ rest) = Some (c, rest).
Proof. destruct c as [[] [] [] [] [] [] [] []]; reflexivity. Qed.

Lemma quote_inj (a b : string) : Quote.quote a = Quote.quote b -> a = b.
Proof.
  revert b; induction a as [| x a IH]; intros [| y b] H.
  - reflexivity.
  - apply (f_equal decode_char) in H. simpl in H.
    rewrite decode_quote_char in H. discriminate.
  - apply (f_equal decode_char) in H. simpl in H.
    rewrite decode_quote_char in H. discriminate.
  - apply (f_equal decode_char) in H. simpl in H.
    rewrite !decode_quote_char in H. injection H as -> H.
    f_equal. now apply IH.
Qed.

(** X13: the quoted profile name in the URL of a delete request is made of
    letters, digits and the characters [_ . - ~ / %] only, so a name cannot
    add a parameter or a fragment to the URL. *)
Theorem quote_url_safe (s : string) :
  all_chars url_safe (Quote.quote s) = true.
Proof.
  induction s as [| c s IH]; simpl; [reflexivity |].
  now rewrite all_chars_append, quote_char_safe, IH.
Qed.

(** X14: quoting loses nothing: two profile names with the same quoted form
    are the same name, so the delete requests for two different profiles
    of an account have different URLs. *)
Theorem delete_request_inj (auth_token gateway_url a b : string) :
  (Quote.quote a = Quote.quote b -> a = b)
  /\ (url (delete_request auth_token gateway_url a)
      = url (delete_request auth_token gateway_url b) -> a = b).
Proof.
  split; [apply quote_inj |].
  unfold delete_request. cbn [url]. intros H.
  apply append_cancel_l in H. apply append_cancel_l in H.
  apply append_cancel_l in H. now apply quote_inj.
Qed.

(** A space and its escape give different URLs. *)
Lemma delete_request_inj_witness :
  url (delete_request "tok0" "gateway" "a b")
  <> url (delete_request "tok0" "gateway" "a%20b").
Proof.
  intros H.
  apply (proj2 (delete_request_inj "tok0" "gateway" "a b" "a%20b")) in H.
  discriminate H.
Defined.

(** ** Status colours *)

Lemma lower_char_idempotent (c : ascii) :
  Py.lower_char (Py.lower_char c) = Py.lower_char c.
Proof. destruct c as [[] [] [] [] [] [] [] []]; reflexivity. Qed.

Lemma lower_idempotent (s : string) : Py.lower (Py.lower s) = Py.lower s.
Proof.
  induction s as [| c s IH]; simpl; [reflexivity |].
  now rewrite lower_char_idempotent, IH.
Qed.

Lemma lower_append (a b : string) :
  Py.lower (a ++ b) = Py.lower a ++ Py.lower b.
Proof. induction a as [| c a IH]; simpl; [reflexivity | now rewrite IH]. Qed.

Lemma remove_spaces_append (a b : string) :
  remove_spaces (a ++ b) = remove_spaces a ++ remove_spaces b.
Proof.
  induction a as [| c a IH]; simpl; [reflexivity |].
  destruct (Ascii.eqb c " "); simpl; now rewrite IH.
Qed.

Lemma colors_get_present (table : list (string * string))
    (key default color : string) :
  NoDup (map fst table) -> In (key, color) table ->
  colors_get table key default = color.
Proof.
  induction table as [| [k v] table IH]; simpl; intros Hnd Hin.
  - contradiction.
  - inversion Hnd as [| ? ? Hfresh Hnd']; subst.
    destruct Hin as [Heq | Hin].
    + injection Heq as -> ->. now rewrite String.eqb_refl.
    + destruct (String.eqb_spec k key) as [-> | _].
      * exfalso. apply Hfresh. apply (in_map fst) in Hin. exact Hin.
      * now apply IH.
Qed.

Lemma colors_get_absent (table : list (string * string))
    (key default : string) :
  ~ In key (map fst table) -> colors_get table key default = default.
Proof.
  induction table as [| [k v] table IH]; simpl; intros Hno.
  - reflexivity.
  - destruct (String.eqb_spec k key) as [-> | _]; [tauto |].
    apply IH. tauto.
Qed.

(** X15: the colour of a status badge does not depend on the letter case of
    the status nor on the spaces in it; a status that reads as a key of
    [STATUS_COLORS] once lower-cased and without spaces gets the colour of
    that key, any other status gets the grey [#6B7280].  The status of the
    sentinel row gets the colour of "failed", the default status "Unknown"
    gets the grey. *)
Theorem status_color_normalised (s t : string) :
  status_color (Py.lower s) = status_color s
  /\ status_color (s ++ " " ++ t) = status_color (s ++ t)
  /\ (forall key color,
        In (key, color) STATUS_COLORS ->
        remove_spaces (Py.lower s) = key -> status_color s = color)
  /\ (~ In (remove_spaces (Py.lower s)) (map fst STATUS_COLORS) ->
      status_color s = "#6B7280")
  /\ status_color "Status Retrieval Failed" = status_color "failed"
  /\ status_color "Unknown" = "#6B7280".
Proof.
  unfold status_color.
  split; [now rewrite lower_idempotent |].
  split.
  { rewrite !lower_append, !remove_spaces_append. reflexivity. }
  split.
  { intros key color Hin <-. apply colors_get_present; [| exact Hin].
    simpl. concrete_nodup. }
  split; [apply colors_get_absent | split; reflexivity].
Qed.

(** The status "In Progress (Retry)" reads as the key "inprogress(retry)". *)
Lemma status_color_normalised_witness :
  status_color "In Progress (Retry)" = "#FDBA74".
Proof.
  destruct (status_color_normalised "In Progress (Retry)" EmptyString)
    as (_ & _ & Hkey & _).
  apply (Hkey "inprogress(retry)").
  - simpl. tauto.
  - reflexivity.
Defined.

(** ** Row selection and bulk delete *)

Lemma label_rows (df : list Row) (a : nat) (i : nat) (row : Row) :
  In (i, row) (combine (seq a (List.length df)) df) ->
  (a <= i)%nat /\ nth_error df (i - a) = Some row.
Proof.
  revert a; induction df as [| r df IH]; intros a; simpl; [intros [] |].
  intros [H | H].
  - injection H as <- <-. split; [lia |]. now rewrite Nat.sub_diag.
  - apply IH in H. destruct H as [Hle Hnth]. split; [lia |].
    replace (i - a)%nat with (S (i - S a)) by lia. exact Hnth.
Qed.

Lemma label_fst (df : list Row) (a : nat) :
  map fst (combine (seq a (List.length df)) df) = seq a (List.length df).
Proof.
  revert a; induction df as [| r df IH]; intros a; simpl; [reflexivity |].
  now rewrite IH.
Qed.

Lemma label_snd (df : list Row) (a : nat) :
  map snd (combine (seq a (List.length df)) df) = df.
Proof.
  revert a; induction df as [| r df IH]; intros a; simpl; [reflexivity |].
  now rewrite IH.
Qed.

(** The entries a mask keeps form a sub-list. *)
Lemma kept_in (A : Type) (l : list A) (mask : list bool) (x : A) :
  In x (map fst (filter snd (combine l mask))) -> In x l.
Proof.
  revert mask; induction l as [| y l IH]; intros [| b mask]; simpl;
    try (intros []).
  destruct b; simpl; [intros [H | H] |]; eauto.
Qed.

Lemma kept_nodup (A B : Type) (f : A -> B) (l : list A) (mask : list bool) :
  NoDup (map f l) -> NoDup (map f (map fst (filter snd (combine l mask)))).
Proof.
  revert mask; induction l as [| y l IH]; intros [| b mask] Hnd; simpl;
    try constructor.
  inversion Hnd as [| ? ? Hfresh Hnd']; subst.
  destruct b; simpl; [| now apply IH].
  constructor; [| now apply IH].
  intros Hin. apply Hfresh. apply in_map_iff in Hin.
  destruct Hin as (x & <- & Hx). apply in_map. now apply kept_in in Hx.
Qed.

Lemma kept_snd (df : list Row) (labels : list nat) (mask : list bool) :
  map snd (map fst (filter snd (combine (combine labels df) mask)))
  = select (map snd (combine labels df)) mask.
Proof.
  unfold select. generalize (combine labels df) as l.
  intros l. revert mask; induction l as [| y l IH]; intros [| b mask]; simpl;
    try reflexivity.
  destruct b; simpl; now rewrite IH.
Qed.

Lemma label_nth (df : list Row) (i : nat) (row : Row) :
  In (i, row) (label df) -> nth_error df i = Some row.
Proof.
  unfold label. intros H. apply label_rows in H. destruct H as [_ H].
  now rewrite Nat.sub_0_r in H.
Qed.

(** A row the page shows is a row of the unfiltered table. *)
Lemma visible_rows_in (search : string) (df : list Row)
    (rows : list (nat * Row)) (i : nat) (row : Row) :
  visible_rows search df = Some (Ok rows) ->
  In (i, row) rows -> In row df.
Proof.
  unfold visible_rows.
  destruct (Py.truthy_str search).
  - destruct (apply_mask search df) as [[mask | e] |]; try discriminate.
    intros H. injection H as <-. intros Hin. apply kept_in in Hin.
    apply label_nth in Hin. now apply nth_error_In in Hin.
  - intros H. injection H as <-. intros Hin.
    apply label_nth in Hin. now apply nth_error_In in Hin.
Qed.

(** X16: the rows the page shows carry distinct index labels, so no two
    checkboxes share a key; the row with the label [i] is the [i]-th row of
    the unfiltered table, and the rows shown are those the search filter
    returns. *)
Theorem visible_rows_labels (search : string) (df : list Row)
    (rows : list (nat * Row)) :
  visible_rows search df = Some (Ok rows) ->
  NoDup (map fst rows)
  /\ (forall i row, In (i, row) rows -> nth_error df i = Some row)
  /\ search_filter search df = Some (Ok (map snd rows)).
Proof.
  unfold visible_rows, search_filter.
  destruct (Py.truthy_str search).
  - destruct (apply_mask search df) as [[mask | e] |]; try discriminate.
    intros H. injection H as <-. split; [| split].
    + apply kept_nodup. unfold label. rewrite label_fst. apply seq_NoDup.
    + intros i row Hin. apply kept_in in Hin. now apply label_nth.
    + unfold label. now rewrite kept_snd, label_snd.
  - intros H. injection H as <-. split; [| split].
    + unfold label. rewrite label_fst. apply seq_NoDup.
    + apply label_nth.
    + unfold label. now rewrite label_snd.
Qed.

(** The query "retry" keeps the second of the two sample rows, with its
    label 1. *)
Lemma visible_rows_labels_witness :
  nth_error [row_completed; row_retry] 1 = Some row_retry
  /\ search_filter "retry" [row_completed; row_retry] = Some (Ok [row_retry]).
Proof.
  destruct (visible_rows_labels "retry" [row_completed; row_retry]
              [(1%nat, row_retry)] eq_refl) as (_ & Hnth & Hfilter).
  split; [apply Hnth; now left | exact Hfilter].
Defined.

Lemma to_frame_usernames (records : list ProfileRecord) (df : list Row) :
  to_frame records = Some df ->
  map row_username df = map username records.
Proof.
  revert df; induction records as [| r records IH]; intros df; simpl.
  - intros H. now injection H as <-.
  - destruct (frame_row r) as [row |] eqn:Hrow; [| discriminate].
    destruct (to_frame records) as [rows |]; [| discriminate].
    intros H. injection H as <-. simpl. rewrite (IH rows eq_refl).
    f_equal. unfold frame_row in Hrow.
    destruct (profileName r), (status r), (lastConfiguredOn r),
      (nextScheduledSyncOn r), (lastDiscoveryCompletedOn r);
      try discriminate Hrow.
    now injection Hrow as <-.
Qed.

Lemma selected_profiles_in (checkbox : nat -> bool) (rows : list (nat * Row))
    (s : Selection) :
  In s (selected_profiles checkbox rows) ->
  exists i row,
    In (i, row) rows /\ checkbox i = true
    /\ s = mkSelection (row_username row) (row_profileName row).
Proof.
  induction rows as [| [i row] rows IH]; simpl; [intros [] |].
  destruct (checkbox i) eqn:Hi.
  - intros [<- | H].
    + exists i, row. auto.
    + destruct (IH H) as (j & r & Hin & Hj & Hs). exists j, r. auto.
  - intros H. destruct (IH H) as (j & r & Hin & Hj & Hs). exists j, r. auto.
Qed.

(** X17: the selections collected from the table of a run all belong to
    identities of the token dictionary of that run, so the bulk delete never
    fails on a missing token: it returns its two lists, one entry per
    selection, after one delete request per selection. *)
Theorem page_delete_never_misses_token
    (env : History -> Request -> Outcome) (gateway_url : string)
    (tokens : TokenDict) (h h1 h2 : History)
    (records : list ProfileRecord) (df : list Row) (search : string)
    (rows : list (nat * Row)) (checkbox : nat -> bool) :
  aggregate env gateway_url tokens h = (Ok records, h1) ->
  to_frame records = Some df ->
  visible_rows search df = Some (Ok rows) ->
  let selected := selected_profiles checkbox rows in
  (forall s, In s selected -> In (sel_username s) (Dict.keys tokens))
  /\ exists succeeded failed,
       bulk_delete env gateway_url tokens selected h2
       = (Ok (succeeded, failed),
          (h2 ++ delete_requests tokens gateway_url selected)%list)
       /\ (List.length succeeded + List.length failed
           = List.length selected)%nat.
Proof.
  intros Hagg Hframe Hrows selected.
  assert (Hkeys : forall s, In s selected ->
                    In (sel_username s) (Dict.keys tokens)).
  { intros s Hs. apply selected_profiles_in in Hs.
    destruct Hs as (i & row & Hin & _ & ->). simpl.
    apply (visible_rows_in _ _ _ _ _ Hrows) in Hin.
    apply (in_map row_username) in Hin.
    rewrite (to_frame_usernames _ _ Hframe) in Hin.
    apply in_map_iff in Hin. destruct Hin as (r & <- & Hr).
    now apply (aggregate_owners _ _ _ _ _ _ Hagg). }
  split; [exact Hkeys |].
  destruct (delete_loop_spec env gateway_url tokens selected [] [] h2)
    as (succeeded & failed & Hrun & Hlen & _).
  { intros s Hs. apply dict_get_in_keys. now apply Hkeys. }
  exists succeeded, failed. split; [exact Hrun | exact Hlen].
Qed.

(** The table of the run of [env_fetch], every row checked. *)
Lemma page_delete_never_misses_token_witness :
  exists succeeded failed,
    fst (bulk_delete env_fetch "gateway" sample_tokens
           [mkSelection "easm" "alpha"; mkSelection "easm1" "N/A";
            mkSelection "easm2" "N/A"] [])
    = Ok (succeeded, failed)
    /\ (List.length succeeded + List.length failed = 3)%nat.
Proof.
  edestruct page_delete_never_misses_token
    with (env := env_fetch) (gateway_url := "gateway")
         (tokens := sample_tokens) (h := @nil Request) (h2 := @nil Request)
         (search := EmptyString) (checkbox := fun _ : nat => true)
    as (_ & succeeded & failed & Hrun & Hlen).
  - vm_compute. reflexivity.
  - vm_compute. reflexivity.
  - vm_compute. reflexivity.
  - exists succeeded, failed. split; [| exact Hlen].
    cbv [selected_profiles row_username row_profileName] in Hrun.
    rewrite Hrun. reflexivity.
Defined.

Lemma delete_loop_app
    (env : History -> Request -> Outcome) (gateway_url : string)
    (tokens : TokenDict) (pre post : list Selection)
    (ok : list string) (ko : list (string * option string)) (h : History) :
  delete_loop env gateway_url tokens (pre ++ post) ok ko h
  = match delete_loop env gateway_url tokens pre ok ko h with
    | (Ok (ok1, ko1), h1) => delete_loop env gateway_url tokens post ok1 ko1 h1
    | (Raise e, h1) => (Raise e, h1)
    end.
Proof.
  revert ok ko h; induction pre as [| s pre IH]; intros ok ko h.
  - reflexivity.
  - simpl. destruct (Dict.get tokens (sel_username s)); [| reflexivity].
    destruct (delete_profile env s0 gateway_url (sel_profileName s) h)
      as [[success error] h1].
    destruct success; apply IH.
Qed.

(** X18: a selection whose identity has no token makes the bulk delete
    raise [KeyError] for that identity; the deletes of the selections before
    it have been sent already, none is sent for it or for the selections
    after it, and the lists of successes and failures are lost. *)
Theorem bulk_delete_missing_token
    (env : History -> Request -> Outcome) (gateway_url : string)
    (tokens : TokenDict) (pre post : list Selection) (s : Selection)
    (h : History) :
  (forall s', In s' pre -> Dict.get tokens (sel_username s') <> None) ->
  Dict.get tokens (sel_username s) = None ->
  bulk_delete env gateway_url tokens (pre ++ s :: post) h
  = (Raise (KeyError (sel_username s)),
     (h ++ delete_requests tokens gateway_url pre)%list).
Proof.
  intros Hpre Hnone. unfold bulk_delete. rewrite delete_loop_app.
  destruct (delete_loop_spec env gateway_url tokens pre [] [] h Hpre)
    as (succeeded & failed & -> & _).
  simpl. now rewrite Hnone.
Qed.

(** The second selection belongs to an identity without a token. *)
Lemma bulk_delete_missing_token_witness :
  bulk_delete env_delete "gateway" [("easm", "tok0")]
    [mkSelection "easm" "alpha"; mkSelection "easm1" "beta";
     mkSelection "easm" "delta"] []
  = (Raise (KeyError "easm1"), [delete_request "tok0" "gateway" "alpha"]).
Proof.
  apply (bulk_delete_missing_token env_delete "gateway" [("easm", "tok0")]
           [mkSelection "easm" "alpha"] [mkSelection "easm" "delta"]
           (mkSelection "easm1" "beta") []).
  - intros s' [<- | []]. discriminate.
  - reflexivity.
Defined.

(** X19: a checked sentinel row is deleted like any other row: the bulk
    delete sends a delete request for the profile named "N/A" with the
    token of the identity of the row. *)
Theorem sentinel_row_is_deleted
    (env : History -> Request -> Outcome) (gateway_url : string)
    (tokens : TokenDict) (u token : string) (checkbox : nat -> bool)
    (h : History) :
  Dict.get tokens u = Some token ->
  checkbox 0%nat = true ->
  exists df,
    to_frame [sentinel_row u] = Some df
    /\ snd (bulk_delete env gateway_url tokens
              (selected_profiles checkbox (label df)) h)
       = (h ++ [delete_request token gateway_url "N/A"])%list
    /\ url (delete_request token gateway_url "N/A")
       = "https://" ++ gateway_url ++ "/easm/v2/profile?profileName=N/A".
Proof.
  intros Hget Hcheck. eexists. split; [reflexivity | split; [| reflexivity]].
  unfold bulk_delete, label. simpl. rewrite Hcheck. simpl. rewrite Hget.
  pose proof (delete_profile_history env token gateway_url "N/A" h) as Hh.
  destruct (delete_profile env token gateway_url "N/A" h)
    as [[success error] h1].
  simpl in Hh. subst h1. destruct success; reflexivity.
Qed.

(** The sentinel row of "easm1" with every checkbox checked. *)
Lemma sentinel_row_is_deleted_witness :
  exists df,
    to_frame [sentinel_row "easm1"] = Some df
    /\ snd (bulk_delete env_delete "gateway" sample_tokens
              (selected_profiles (fun _ => true) (label df)) [])
       = [delete_request "tok1" "gateway" "N/A"]
    /\ url (delete_request "tok1" "gateway" "N/A")
       = "https://gateway/easm/v2/profile?profileName=N/A".
Proof.
  apply (sentinel_row_is_deleted env_delete "gateway" sample_tokens
           "easm1" "tok1" (fun _ => true) []); reflexivity.
Defined.

(** ** Search filter *)

(** X20: a query that starts with one of the quantifiers [*], [+], [?] or
    with a closing parenthesis does not compile, and filtering a table that
    has rows with it raises. *)
Theorem search_filter_leading_quantifier (c : ascii) (rest : string)
    (row : Row) (df : list Row) :
  Re.is_quantifier c = true \/ c = ")"%char ->
  Re.compile (String c rest) = Re.Error
  /\ search_filter (String c rest) (row :: df) = Some (Raise ReError).
Proof.
  intros Hc.
  assert (Hcompile : Re.compile (String c rest) = Re.Error).
  { unfold Re.compile. cbn [Re.parse]. destruct Hc as [Hq | ->].
    - rewrite Hq. unfold Re.is_quantifier in Hq.
      destruct (Ascii.eqb_spec c "(") as [-> | _]; [discriminate |].
      destruct (Ascii.eqb_spec c ")") as [-> | _]; [reflexivity |].
      destruct (Ascii.eqb_spec c "|") as [-> | _]; [discriminate |].
      reflexivity.
    - reflexivity. }
  split; [exact Hcompile |].
  unfold search_filter. cbn [Py.truthy_str apply_mask]. unfold row_mask.
  now rewrite Hcompile.
Qed.

(** The query "*" on the two sample rows. *)
Lemma search_filter_leading_quantifier_witness :
  search_filter "*" [row_completed; row_retry] = Some (Raise ReError).
Proof.
  apply (search_filter_leading_quantifier "*" EmptyString row_completed
           [row_retry]).
  left. reflexivity.
Defined.

(** The plain query "COMPLETED" keeps the row whose status is "completed". *)
Lemma search_filter_plain_witness :
  search_filter "COMPLETED" [row_completed; row_retry]
  = Some (Ok [row_completed]).
Proof.
  rewrite (search_filter_plain "COMPLETED" [row_completed; row_retry]);
    reflexivity.
Defined.
